(** * openlibrary/i18n: catalog maintenance and runtime resolution

    A shallow embedding of [openlibrary/i18n/__init__.py].  The offline
    operations (compile, validate, update, generate) act on a file system,
    the runtime operations (gettext, ungettext, lazy gettext, territory
    names) act on the request context and on two memo tables.  Everything
    is threaded through one world record by a state-and-exception monad:
    a Python exception keeps the effects performed before it was raised. *)

From Stdlib Require Import ZArith NArith Bool Lia.
From stdpp Require Import base option list strings gmap pretty.


(** ** Catalog model *)

(** [message.string] is a [str] for a singular entry and a tuple of
    plural forms for an entry with a plural id. *)
Inductive msgstr :=
  | StrSingle (s : string)
  | StrPlural (forms : list string).

Module Message.
Record t := mk {
  id : String.string;
  plural_id : option String.string;
  string : msgstr;
  locations : list (String.string * nat);
  auto_comments : list String.string;
  fuzzy : bool;
  lineno : option nat
}.
End Message.

(** A catalog is its header (with the file-level fuzzy flag) and its
    entries in insertion order. *)
Record Catalog := {
  mime_headers : string;
  header_fuzzy : bool;
  messages : list Message.t
}.

(** Iterating a catalog yields the header entry first: its id is empty,
    it has no line number and it is fuzzy when the file is. *)
Definition header_message (c : Catalog) : Message.t :=
  Message.mk EmptyString None (StrSingle (mime_headers c)) [] [] (header_fuzzy c) None.

Definition Catalog_iter (c : Catalog) : list Message.t :=
  header_message c :: messages c.

Definition Catalog_get (c : Catalog) (msgid : string) : option Message.t :=
  find (fun m => String.eqb (Message.id m) msgid) (messages c).

(** The catalog [read_po] starts from, and ends with when the file has
    no entry: babel's [Catalog()] is fuzzy until a header entry in the
    file clears the flag. *)
Definition empty_catalog : Catalog :=
  {| mime_headers := EmptyString; header_fuzzy := true; messages := [] |}.

(** ** Runtime views *)

(** The view [Translations] gives of a compiled catalog: singular
    entries by message id, plural entries by message id and form index,
    and the plural rule of the catalog. *)
Record Translations := {
  singular : gmap string string;
  plural_forms : gmap (string * nat) string;
  plural : Z -> nat
}.

Record Locale := {
  territories : gmap string string
}.

(** Values passed as format arguments. *)
Inductive pyval :=
  | VStr (s : string)
  | VInt (z : Z).

(** ** Exceptions and results *)

Definition path := list string.

Inductive exn :=
  | FileNotFoundError (p : path)
  | FileExistsError (p : path)
  | IsADirectoryError (p : path)
  | OSError (p : path)
  | DecodeError
  | UnknownLocaleError (identifier : string)
  | AttributeError (attribute : string)
  | FormatError (reason : string).

Inductive result (A : Type) :=
  | Ok (a : A)
  | Raise (e : exn).
Arguments Ok {A} a.
Arguments Raise {A} e.

(** ** What the embedding leaves to Python and babel

    The [%] operator on strings, [repr] of a list and of a tuple of
    strings, and the image [write_mo] gives a catalog (the binary format
    is opaque: only what [Translations] reads back matters). *)
Class Library := {
  percent_args : string -> list pyval -> result string;
  percent_kwargs : string -> list (string * pyval) -> result string;
  repr_list : list string -> string;
  repr_tuple : list string -> string;
  mo_image : Catalog -> Translations
}.

(** ** The world *)

Inductive content :=
  | Empty
  | PoText (c : Catalog)
  | MoBinary (t : Translations)
  | Garbage.

Inductive node :=
  | Dir (mode : N)
  | File (mode : N) (data : content).

Record World := {
  nodes : gmap path node;
  umask : N;
  device_full : bool;
  lang : string;
  translations_memo : gmap string (option Translations);
  locale_memo : gmap string (option Locale);
  locale_data : gmap string Locale;
  stdout : list string;
  stderr : list string;
  debug : list string
}.

Definition set_nodes (f : gmap path node -> gmap path node) (w : World) : World :=
  {| nodes := f (nodes w); umask := umask w; device_full := device_full w;
     lang := lang w; translations_memo := translations_memo w;
     locale_memo := locale_memo w; locale_data := locale_data w;
     stdout := stdout w; stderr := stderr w; debug := debug w |}.

Definition set_translations_memo (m : gmap string (option Translations)) (w : World) : World :=
  {| nodes := nodes w; umask := umask w; device_full := device_full w;
     lang := lang w; translations_memo := m;
     locale_memo := locale_memo w; locale_data := locale_data w;
     stdout := stdout w; stderr := stderr w; debug := debug w |}.

Definition set_locale_memo (m : gmap string (option Locale)) (w : World) : World :=
  {| nodes := nodes w; umask := umask w; device_full := device_full w;
     lang := lang w; translations_memo := translations_memo w;
     locale_memo := m; locale_data := locale_data w;
     stdout := stdout w; stderr := stderr w; debug := debug w |}.

(** The host's load hook assigns [web.ctx.lang]. *)
Definition set_lang (l : string) (w : World) : World :=
  {| nodes := nodes w; umask := umask w; device_full := device_full w;
     lang := l; translations_memo := translations_memo w;
     locale_memo := locale_memo w; locale_data := locale_data w;
     stdout := stdout w; stderr := stderr w; debug := debug w |}.

Inductive stream := Stdout | Stderr | Debug.

Definition emit (s : stream) (line : string) (w : World) : World :=
  {| nodes := nodes w; umask := umask w; device_full := device_full w;
     lang := lang w; translations_memo := translations_memo w;
     locale_memo := locale_memo w; locale_data := locale_data w;
     stdout := match s with Stdout => stdout w ++ [line] | _ => stdout w end;
     stderr := match s with Stderr => stderr w ++ [line] | _ => stderr w end;
     debug := match s with Debug => debug w ++ [line] | _ => debug w end |}.

(** ** The monad *)

Definition M (A : Type) : Type := World -> result A * World.

Definition ret {A} (a : A) : M A := fun w => (Ok a, w).
Definition raise {A} (e : exn) : M A := fun w => (Raise e, w).
Definition bind {A B} (m : M A) (k : A -> M B) : M B :=
  fun w => match m w with
           | (Ok a, w') => k a w'
           | (Raise e, w') => (Raise e, w')
           end.
Definition try_except {A} (m : M A) (handler : exn -> M A) : M A :=
  fun w => match m w with
           | (Ok a, w') => (Ok a, w')
           | (Raise e, w') => handler e w'
           end.
Definition modify (f : World -> World) : M unit := fun w => (Ok tt, f w).
Definition lift {A} (r : result A) : M A := fun w => (r, w).

Notation "'let*' x ':=' m 'in' k" := (bind m (fun x => k))
  (at level 10, x name, m at level 100, k at level 200).

Fixpoint for_each {A} (l : list A) (body : A -> M unit) : M unit :=
  match l with
  | [] => ret tt
  | x :: l' => let* _ := body x in for_each l' body
  end.

Definition print (s : stream) (line : string) : M unit := modify (emit s line).

(** ** Paths and the file system *)

(** [root] is the directory of the module; [os.path.join] appends
    components and a path prints with [/] between them. *)
Definition root : path := ["openlibrary"; "i18n"].
Definition join (p : path) (parts : list string) : path := p ++ parts.
Definition path_str (p : path) : string := String.concat "/" p.
Definition dirname (p : path) : path := removelast p.
Definition basename (p : path) : string := List.last p EmptyString.

Definition pot_path : path := join root ["messages.pot"].
Definition po_path (locale : string) : path := join root [locale; "messages.po"].
Definition mo_path (locale : string) : path := join root [locale; "messages.mo"].

Definition is_dir (fs : gmap path node) (p : path) : bool :=
  match fs !! p with Some (Dir _) => true | _ => false end.

Definition os_path_exists (p : path) : M bool :=
  fun w => (Ok (match nodes w !! p with Some _ => true | None => false end), w).

Definition os_path_isdir (p : path) : M bool :=
  fun w => (Ok (is_dir (nodes w) p), w).

(** [open(p, 'rb')]: the handle is the data read through it. *)
Definition open_rb (p : path) : M content :=
  fun w => match nodes w !! p with
           | Some (File _ d) => (Ok d, w)
           | Some (Dir _) => (Raise (IsADirectoryError p), w)
           | None => (Raise (FileNotFoundError p), w)
           end.

Definition new_file_mode (w : World) : N := N.ldiff 438%N (umask w).
Definition new_dir_mode (w : World) : N := N.ldiff 511%N (umask w).

(** [open(p, 'wb')]: an existing file is truncated at once, a missing
    one is created empty in an existing directory.  The handle is the
    path written through it. *)
Definition open_wb (p : path) : M path :=
  fun w => match nodes w !! p with
           | Some (Dir _) => (Raise (IsADirectoryError p), w)
           | Some (File m _) => (Ok p, set_nodes <[p := File m Empty]> w)
           | None =>
               if is_dir (nodes w) (dirname p)
               then (Ok p, set_nodes <[p := File (new_file_mode w) Empty]> w)
               else (Raise (FileNotFoundError p), w)
           end.

Definition set_data (d : content) (n : node) : node :=
  match n with
  | File m _ => File m d
  | Dir m => Dir m
  end.

(** Writing data through a handle.  A device without room refuses the
    data and leaves the file as [open] left it. *)
Definition write (f : path) (d : content) : M unit :=
  fun w => match d with
           | Empty => (Ok tt, w)
           | _ => if device_full w
                  then (Raise (OSError f), w)
                  else (Ok tt, set_nodes (alter (set_data d) f) w)
           end.

Definition close (f : path) : M unit := ret tt.

Definition os_mkdir (p : path) : M unit :=
  fun w => match nodes w !! p with
           | Some _ => (Raise (FileExistsError p), w)
           | None =>
               if is_dir (nodes w) (dirname p)
               then (Ok tt, set_nodes <[p := Dir (new_dir_mode w)]> w)
               else (Raise (FileNotFoundError p), w)
           end.

Definition set_mode (m : N) (n : node) : node :=
  match n with
  | File _ d => File m d
  | Dir _ => Dir m
  end.

Definition os_chmod (p : path) (m : N) : M unit :=
  fun w => match nodes w !! p with
           | Some _ => (Ok tt, set_nodes (alter (set_mode m) p) w)
           | None => (Raise (FileNotFoundError p), w)
           end.

Definition mode_of (p : path) : M N :=
  fun w => match nodes w !! p with
           | Some (File m _) => (Ok m, w)
           | Some (Dir m) => (Ok m, w)
           | None => (Raise (FileNotFoundError p), w)
           end.

(** [shutil.copy(src, dst)]: into [dst] when it is a directory, then
    the data and the permission bits of [src]. *)
Definition shutil_copy (src dst : path) : M unit :=
  let* isdir := os_path_isdir dst in
  let dst := if (isdir : bool) then join dst [basename src] else dst in
  let* d := open_rb src in
  let* f := open_wb dst in
  let* _ := write f d in
  let* m := mode_of src in
  os_chmod dst m.

(** [os.listdir(p)], in the order of the directory table. *)
Definition os_listdir (p : path) : M (list string) :=
  fun w => match nodes w !! p with
           | Some (Dir _) =>
               (Ok (omap (fun q : path =>
                            if bool_decide (q <> [] /\ dirname q = p)
                            then Some (basename q) else None)
                         (elements (dom (nodes w)))), w)
           | Some (File _ _) => (Raise (OSError p), w)
           | None => (Raise (FileNotFoundError p), w)
           end.

(** ** Catalog store *)

Definition read_po (d : content) : M Catalog :=
  match d with
  | PoText c => ret c
  | Empty => ret empty_catalog
  | MoBinary _ | Garbage => raise DecodeError
  end.

Definition write_po (f : path) (c : Catalog) : M unit := write f (PoText c).

Definition Translations_init (d : content) : M Translations :=
  match d with
  | MoBinary t => ret t
  | Empty | PoText _ | Garbage => raise DecodeError
  end.

Definition babel_Locale (identifier : string) : M Locale :=
  fun w => match locale_data w !! identifier with
           | Some l => (Ok l, w)
           | None => (Raise (UnknownLocaleError identifier), w)
           end.

(** ** Python odds and ends *)

Definition dquote : string := String (Ascii.ascii_of_nat 34) EmptyString.

(** Truth value of a [str], and of an [int] that may be [None]. *)
Definition str_truthy (s : string) : bool :=
  match s with EmptyString => false | String _ _ => true end.

Definition lineno_truthy (n : option nat) : bool :=
  match n with Some (S _) => true | Some O | None => false end.

(** [x and f(x)] for an object [x] that is [None] or true, and
    [v or d] for a [v] that is [None] or a [str]. *)
Definition py_and {A B} (x : option A) (f : A -> B) : option B :=
  match x with Some a => Some (f a) | None => None end.

Definition value_truthy (v : option string) : bool :=
  match v with Some s => str_truthy s | None => false end.

Definition py_or (v : option string) (d : string) : string :=
  match v with
  | Some s => if str_truthy s then s else d
  | None => d
  end.

Definition contains (needle hay : string) : Prop :=
  exists before after, hay = before +:+ needle +:+ after.

Section Operations.
Context {lib : Library}.

(** What an f-string shows for [message.string]. *)
Definition str_of_msgstr (v : msgstr) : string :=
  match v with
  | StrSingle s => s
  | StrPlural forms => repr_tuple forms
  end.

(** ** Compiler *)

Definition write_mo (f : path) (c : Catalog) : M unit :=
  write f (MoBinary (mo_image c)).

(** The block under [try]. *)
Definition compile_steps (po mo : path) : M unit :=
  let* d := open_rb po in
  let* catalog := read_po d in
  let* f := open_wb mo in
  let* _ := write_mo f catalog in
  let* _ := close f in
  print Debug ("compiled " +:+ path_str po).

Definition _compile_translation (po mo : path) : M unit :=
  try_except
    (compile_steps po mo)
    (fun e =>
     let* _ := print Debug ("failed to compile " +:+ path_str po) in
     raise e).

(** The catalog [read_po] finds at a path, when it finds one. *)
Definition catalog_at (w : World) (p : path) : option Catalog :=
  match nodes w !! p with
  | Some (File _ (PoText c)) => Some c
  | Some (File _ Empty) => Some empty_catalog
  | _ => None
  end.

(** ** Validator *)

Definition str_of_lineno (n : option nat) : string :=
  match n with Some k => pretty k | None => "None" end.

Definition fuzzy_line (locale : string) (message : Message.t) : string :=
  "openlibrary/i18n/" +:+ locale +:+ "/messages.po:"
  +:+ str_of_lineno (Message.lineno message) +:+ ":"
  +:+ " " +:+ dquote +:+ str_of_msgstr (Message.string message) +:+ dquote
  +:+ " is fuzzy.".

Definition fuzzy_file : string :=
  "  File is fuzzy.  Remove line containing " +:+ dquote +:+ "#, fuzzy" +:+ dquote
  +:+ " found near " +:+ "the beginning of the file.".

(** The diagnostic of one fuzzy entry. *)
Definition diagnostic (locale : string) (message : Message.t) : string :=
  if lineno_truthy (Message.lineno message)
  then fuzzy_line locale message else fuzzy_file.

(** One turn of the loop over the catalog. *)
Definition validate_step (locale : string)
    (validation_errors : list string) (message : Message.t) : list string :=
  if Message.fuzzy message then
    if lineno_truthy (Message.lineno message)
    then validation_errors ++ [fuzzy_line locale message]
    else validation_errors ++ [fuzzy_file]
  else validation_errors.

Definition validation_errors_of (catalog : Catalog) (locale : string) : list string :=
  fold_left (validate_step locale) (Catalog_iter catalog) [].

Definition _validate_catalog (catalog : Catalog) (locale : string) : M bool :=
  let validation_errors := validation_errors_of catalog locale in
  let* _ :=
    match validation_errors with
    | _ :: _ =>
        let* _ := print Stdout "Validation failed..." in
        let* _ := print Stdout "Please correct the following errors before proceeding:" in
        for_each validation_errors (print Stdout)
    | [] => ret tt
    end in
  ret (Nat.eqb (length validation_errors) 0).

Definition validate_translations (args : list string) : M bool :=
  match args with
  | locale :: _ =>
      let po_path := join root [locale; "messages.po"] in
      let* found := os_path_exists po_path in
      if (found : bool) then
        let* d := open_rb po_path in
        let* catalog := read_po d in
        let* is_valid := _validate_catalog catalog locale in
        let* _ :=
          if (is_valid : bool)
          then print Stdout ("Translations for locale " +:+ dquote +:+ locale
                             +:+ dquote +:+ " are valid!")
          else ret tt in
        ret is_valid
      else
        let* _ := print Stdout ("Portable object file for locale " +:+ dquote
                                +:+ locale +:+ dquote +:+ " does not exist.") in
        ret false
  | [] =>
      let* _ := print Stdout "Must include locale code when executing validate." in
      ret false
  end.

(** ** Locales on disk *)

Fixpoint filter_m {A} (keep : A -> M bool) (l : list A) : M (list A) :=
  match l with
  | [] => ret []
  | x :: l' =>
      let* b := keep x in
      let* rest := filter_m keep l' in
      ret (if (b : bool) then x :: rest else rest)
  end.

Definition get_locales : M (list string) :=
  let* ds := os_listdir root in
  filter_m (fun d =>
              let* isdir := os_path_isdir (join root [d]) in
              if (isdir : bool)
              then os_path_exists (join root [d; "messages.po"])
              else ret false) ds.

(** [locales or get_locales()] *)
Definition locales_or_all (locales : list string) : M (list string) :=
  match locales with
  | [] => get_locales
  | _ :: _ => ret locales
  end.

Definition compile_translations (locales : list string) : M unit :=
  let* locales_to_update := locales_or_all locales in
  for_each locales_to_update (fun locale =>
    let po_path := join root [locale; "messages.po"] in
    let mo_path := join root [locale; "messages.mo"] in
    let* found := os_path_exists po_path in
    if (found : bool) then _compile_translation po_path mo_path else ret tt).

(** ** Locale synchronizer *)

(** Modelled from the spec: [Catalog.update], the merge of a template
    into a working catalog, belongs to babel and is missing from the
    sources.  Per message id of the template, in template order: an id
    the working catalog has keeps its translation (singular and plural
    forms) and its fuzzy state and takes locations and extractor
    comments from the template; an id it lacks enters with an empty
    translation and not fuzzy; ids only the working catalog has are
    dropped.  The header stays the working catalog's. *)
Definition merge_message (existing : Catalog) (tm : Message.t) : Message.t :=
  match Catalog_get existing (Message.id tm) with
  | Some em =>
      Message.mk (Message.id tm) (Message.plural_id tm) (Message.string em)
                 (Message.locations tm) (Message.auto_comments tm)
                 (Message.fuzzy em) (Message.lineno tm)
  | None =>
      Message.mk (Message.id tm) (Message.plural_id tm) (StrSingle EmptyString)
                 (Message.locations tm) (Message.auto_comments tm)
                 false (Message.lineno tm)
  end.

Definition Catalog_update (existing template : Catalog) : Catalog :=
  {| mime_headers := mime_headers existing;
     header_fuzzy := header_fuzzy existing;
     messages := map (merge_message existing) (messages template) |}.

Definition update_translations (locales : list string) : M unit :=
  let* locales_to_update := locales_or_all locales in
  let* _ := print Stdout ("Updating " +:+ repr_list locales_to_update) in
  let pot_path := join root ["messages.pot"] in
  let* d := open_rb pot_path in
  let* template := read_po d in
  let* _ :=
    for_each locales_to_update (fun locale =>
      let po_path := join root [locale; "messages.po"] in
      let mo_path := join root [locale; "messages.mo"] in
      let* found := os_path_exists po_path in
      if (found : bool) then
        let* d := open_rb po_path in
        let* catalog := read_po d in
        let catalog := Catalog_update catalog template in
        let* f := open_wb po_path in
        let* _ := write_po f catalog in
        let* _ := close f in
        print Stdout ("updated " +:+ path_str po_path)
      else
        print Stdout ("ERROR: " +:+ path_str po_path +:+ " does not exist...")) in
  compile_translations locales_to_update.

(** ** Seeding a locale *)

Definition generate_po (args : list string) : M unit :=
  match args with
  | locale :: _ =>
      let po_dir := join root [locale] in
      let pot_src := join root ["messages.pot"] in
      let po_dest := join po_dir ["messages.po"] in
      let* dir_found := os_path_exists po_dir in
      if (dir_found : bool) then
        let* po_found := os_path_exists po_dest in
        if (po_found : bool) then
          print Stdout ("Portable object file already exists at " +:+ path_str po_dest)
        else
          let* _ := shutil_copy pot_src po_dest in
          let* _ := os_chmod po_dest 438%N in
          print Stdout ("File created at " +:+ path_str po_dest)
      else
        let* _ := os_mkdir po_dir in
        let* _ := os_chmod po_dir 511%N in
        let* _ := shutil_copy pot_src po_dest in
        let* _ := os_chmod po_dest 438%N in
        print Stdout ("File created at " +:+ path_str po_dest)
  | [] => print Stdout "Add failed. Missing required locale code."
  end.

(** ** Runtime resolver *)

(** [web.memoize]: the first result for a key is kept for the life of
    the process; a call that raises keeps nothing. *)
Definition memoize {V} (table : World -> gmap string V)
    (store : gmap string V -> World -> World)
    (func : string -> M V) (key : string) : M V :=
  fun w => match table w !! key with
           | Some v => (Ok v, w)
           | None =>
               match func key w with
               | (Ok v, w') => (Ok v, store (<[key := v]> (table w')) w')
               | (Raise e, w') => (Raise e, w')
               end
           end.

Definition load_translations : string -> M (option Translations) :=
  memoize translations_memo set_translations_memo (fun lang =>
    let mo_path := join root [lang; "messages.mo"] in
    let* found := os_path_exists mo_path in
    if (found : bool) then
      let* d := open_rb mo_path in
      let* t := Translations_init d in
      ret (Some t)
    else ret None).

Definition load_locale : string -> M (option Locale) :=
  memoize locale_memo set_locale_memo (fun lang =>
    try_except
      (let* l := babel_Locale lang in ret (Some l))
      (fun e => match e with
                | UnknownLocaleError _ => ret None
                | _ => raise e
                end)).

(** Modelled from the spec: the lookups of a compiled catalog belong to
    babel and gettext and are missing from the sources.  A message the
    catalog lacks resolves to itself; a plural entry the catalog lacks
    resolves to the singular message for count 1 and to the plural
    message otherwise. *)
Definition Translations_ugettext (t : Translations) (message : string) : string :=
  default message (singular t !! message).

Definition Translations_ungettext (t : Translations) (s1 s2 : string) (n : Z) : string :=
  default (if Z.eqb n 1 then s1 else s2) (plural_forms t !! (s1, plural t n)).

Definition web_ctx_lang : M string := fun w => (Ok (lang w), w).

(** [value % args] when [args] is not empty, else [value % kwargs] when
    [kwargs] is not empty, else [value]. *)
Definition substitute (value : string) (args : list pyval)
    (kwargs : list (string * pyval)) : M string :=
  match args, kwargs with
  | _ :: _, _ => lift (percent_args value args)
  | [], _ :: _ => lift (percent_kwargs value kwargs)
  | [], [] => ret value
  end.

Definition GetText_call (string : String.string) (args : list pyval)
    (kwargs : list (String.string * pyval)) : M String.string :=
  let* lang := web_ctx_lang in
  let* translations := load_translations lang in
  let value :=
    py_or (py_and translations (fun t => Translations_ugettext t string)) string in
  substitute value args kwargs.

Definition ungettext (s1 s2 : string) (_n : Z) (a : list pyval)
    (kw : list (string * pyval)) : M string :=
  let* lang := web_ctx_lang in
  let* translations := load_translations lang in
  let value := py_and translations (fun t => Translations_ungettext t s1 s2 _n) in
  let value :=
    if value_truthy value then default EmptyString value
    else if Z.eqb _n 1 then s1 else s2 in
  substitute value a kw.

(** A deferred string holds the computation, not its result. *)
Record LazyObject := { _creator : M string }.

Definition LazyGetText_call (string : String.string) (args : list pyval)
    (kwargs : list (String.string * pyval)) : M LazyObject :=
  ret {| _creator := GetText_call string args kwargs |}.

(** [web.safestr] leaves a [str] as it is. *)
Definition web_safestr (s : string) : string := s.

Definition LazyObject_str (self : LazyObject) : M string :=
  let* v := _creator self in ret (web_safestr v).

Definition LazyObject_add (self : LazyObject) (other : string) : M string :=
  let* v := _creator self in ret (v +:+ other).

Definition LazyObject_radd (self : LazyObject) (other : string) : M string :=
  let* v := _creator self in ret (other +:+ v).

Definition gettext := GetText_call.
Definition ugettext := gettext.
Definition lgettext := LazyGetText_call.

Definition gettext_territory (code : string) : M string :=
  let* lang := web_ctx_lang in
  let* locale := load_locale lang in
  match locale with
  | Some l => ret (default code (territories l !! code))
  | None => raise (AttributeError "territories")
  end.

End Operations.

(** ** What the resolver sees

    The compiled catalog of a locale as [load_translations] finds it:
    the memo entry when there is one, else the compiled file, where no
    file means no catalog.  A file that is there and is not a compiled
    catalog gives no view. *)
Definition compiled_catalog (w : World) (lang : string) : option (option Translations) :=
  match translations_memo w !! lang with
  | Some v => Some v
  | None =>
      match nodes w !! mo_path lang with
      | None => Some None
      | Some (File _ (MoBinary t)) => Some (Some t)
      | Some _ => None
      end
  end.

(** The world after a first lookup has filled the memo. *)
Definition remember (lang : string) (v : option Translations) (w : World) : World :=
  match translations_memo w !! lang with
  | Some _ => w
  | None => set_translations_memo (<[lang := v]> (translations_memo w)) w
  end.

(** ** A sample library and sample worlds

    Used to evaluate the operations on concrete inputs.  The sample [%]
    covers format strings without a conversion specifier: Python refuses
    positional arguments there and accepts a mapping.  The sample image
    of [write_mo] keeps the translated entries that are not fuzzy. *)

Fixpoint has_percent (s : string) : bool :=
  match s with
  | EmptyString => false
  | String c rest => if Ascii.eqb c (Ascii.ascii_of_nat 37) then true else has_percent rest
  end.

Definition sample_percent_args (value : string) (args : list pyval) : result string :=
  if has_percent value
  then Raise (FormatError "conversion specifiers are outside the sample")
  else Raise (FormatError "not all arguments converted during string formatting").

Definition sample_percent_kwargs (value : string) (kwargs : list (string * pyval))
    : result string :=
  if has_percent value
  then Raise (FormatError "conversion specifiers are outside the sample")
  else Ok value.

Definition quoted (s : string) : string := "'" +:+ s +:+ "'".

Definition sample_mo_image (c : Catalog) : Translations :=
  {| singular :=
       list_to_map (omap (fun m =>
         match Message.string m with
         | StrSingle s =>
             if Message.fuzzy m || negb (str_truthy s) then None
             else Some (Message.id m, s)
         | StrPlural _ => None
         end) (messages c));
     plural_forms :=
       list_to_map (flat_map (fun m =>
         match Message.string m with
         | StrPlural forms =>
             if Message.fuzzy m then []
             else imap (fun i s => ((Message.id m, i), s)) forms
         | StrSingle _ => []
         end) (messages c));
     plural := fun n => if Z.eqb n 1 then 0 else 1 |}.

Definition sample_library : Library :=
  {| percent_args := sample_percent_args;
     percent_kwargs := sample_percent_kwargs;
     repr_list := fun l => "[" +:+ String.concat ", " (map quoted l) +:+ "]";
     repr_tuple := fun l => "(" +:+ String.concat ", " (map quoted l) +:+ ")";
     mo_image := sample_mo_image |}.

Definition entry (msgid translation : string) (fuzzy : bool) (lineno : option nat)
    : Message.t :=
  Message.mk msgid None (StrSingle translation) [] [] fuzzy lineno.

Definition sample_template : Catalog :=
  {| mime_headers := "Project-Id-Version: Open Library";
     header_fuzzy := false;
     messages := [entry "Hello" EmptyString false (Some 10);
                  entry "Goodbye" EmptyString false (Some 14)] |}.

Definition sample_fr : Catalog :=
  {| mime_headers := "Language: fr";
     header_fuzzy := false;
     messages := [entry "Hello" "Bonjour" false (Some 12);
                  entry "Old" "Vieux" false (Some 16)] |}.

Definition sample_en : Catalog :=
  {| mime_headers := "Language: en";
     header_fuzzy := false;
     messages := [entry "Hello" "Hello!" false (Some 12)] |}.

Definition sample_nodes : gmap path node :=
  list_to_map
    [(["openlibrary"], Dir 493);
     (root, Dir 493);
     (pot_path, File 420 (PoText sample_template));
     (join root ["fr"], Dir 493);
     (po_path "fr", File 420 (PoText sample_fr));
     (mo_path "fr", File 420 (MoBinary (sample_mo_image sample_fr)));
     (join root ["en"], Dir 493);
     (po_path "en", File 420 (PoText sample_en));
     (mo_path "en", File 420 (MoBinary (sample_mo_image sample_en)));
     (join root ["de"], Dir 493)].

Definition sample_locales : gmap string Locale :=
  list_to_map
    [("en", {| territories := list_to_map [("FR", "France"); ("DE", "Germany")] |});
     ("fr", {| territories := list_to_map [("FR", "France"); ("DE", "Allemagne")] |})].

Definition sample_world : World :=
  {| nodes := sample_nodes; umask := 18; device_full := false; lang := "en";
     translations_memo := ∅; locale_memo := ∅; locale_data := sample_locales;
     stdout := []; stderr := []; debug := [] |}.


(** A compiled catalog with entries that are there and empty. *)
Definition blank_translations : Translations :=
  {| singular := {[ "Hello" := EmptyString ]};
     plural_forms := {[ ("one item", 0) := EmptyString; ("one item", 1) := EmptyString ]};
     plural := fun n => if Z.eqb n 1 then 0 else 1 |}.

Definition blank_world : World :=
  {| nodes := <[mo_path "pt" := File 420 (MoBinary blank_translations)]> sample_nodes;
     umask := 18; device_full := false; lang := "pt";
     translations_memo := ∅; locale_memo := ∅; locale_data := sample_locales;
     stdout := []; stderr := []; debug := [] |}.

(** The same world on a device without room. *)
Definition full_world : World :=
  {| nodes := sample_nodes; umask := 18; device_full := true; lang := "en";
     translations_memo := ∅; locale_memo := ∅; locale_data := sample_locales;
     stdout := []; stderr := []; debug := [] |}.

(** ** Extraction

    One occurrence of a translatable message, as [extract_from_dir]
    yields it: file name, line, message (with its plural when it has
    one), extractor comments and context. *)
Record occurrence := {
  occ_filename : string;
  occ_lineno : nat;
  occ_message : string * option string;
  occ_comments : list string;
  occ_context : option string
}.

(** What the template builder leaves to babel: the scan of a directory
    with the extraction methods, the comment tags and the flag that
    strips them, and the header of a catalog made anew for the project. *)
Class Extraction := {
  extract_from_dir :
    string -> list (string * string) -> list string -> bool -> M (list occurrence);
  fresh_headers : string
}.

Definition tab : string := String (Ascii.ascii_of_nat 9) EmptyString.

(** [posixpath.join] of two strings. *)
Definition starts_with_slash (b : string) : bool :=
  match b with
  | String c _ => Ascii.eqb c (Ascii.ascii_of_nat 47)
  | EmptyString => false
  end.

Fixpoint ends_with_slash (a : string) : bool :=
  match a with
  | EmptyString => false
  | String c EmptyString => Ascii.eqb c (Ascii.ascii_of_nat 47)
  | String _ rest => ends_with_slash rest
  end.

Definition posix_join (a b : string) : string :=
  if starts_with_slash b then b
  else if negb (str_truthy a) || ends_with_slash a then a +:+ b
  else a +:+ "/" +:+ b.

(** [counts[filename] = counts.get(filename, 0) + 1] on a dictionary
    that keeps the order of first insertion. *)
Fixpoint count_file (counts : list (string * nat)) (filename : string)
    : list (string * nat) :=
  match counts with
  | [] => [(filename, 1)]
  | (f, n) :: rest =>
      if String.eqb f filename then (f, n + 1) :: rest
      else (f, n) :: count_file rest filename
  end.

(** Modelled from the spec: [Catalog.add] belongs to babel and is
    missing from the sources.  A message id new to the catalog enters
    at the end with its first location and its comments, without
    translation and not fuzzy; for an id the catalog has, the new
    location is appended and comments are not duplicated. *)
Definition add_location (loc : string * nat) (comments : list string)
    (m : Message.t) : Message.t :=
  Message.mk (Message.id m) (Message.plural_id m) (Message.string m)
             (Message.locations m ++ [loc])
             (Message.auto_comments m
              ++ List.filter (fun c => negb (existsb (String.eqb c) (Message.auto_comments m)))
                   comments)
             (Message.fuzzy m) (Message.lineno m).

Fixpoint add_message (msgs : list Message.t) (msgid : string * option string)
    (loc : string * nat) (comments : list string) : list Message.t :=
  match msgs with
  | [] => [Message.mk msgid.1 msgid.2 (StrSingle EmptyString) [loc] comments false None]
  | m :: rest =>
      if String.eqb (Message.id m) msgid.1
      then add_location loc comments m :: rest
      else m :: add_message rest msgid loc comments
  end.

Definition Catalog_add (c : Catalog) (msgid : string * option string)
    (loc : string * nat) (comments : list string) : Catalog :=
  {| mime_headers := mime_headers c;
     header_fuzzy := header_fuzzy c;
     messages := add_message (messages c) msgid loc comments |}.

Fixpoint fold_m {A S} (l : list A) (body : S -> A -> M S) (s : S) : M S :=
  match l with
  | [] => ret s
  | x :: l' => let* s' := body s x in fold_m l' body s'
  end.

Section Template_builder.
Context {ext : Extraction}.

Definition METHODS : list (string * string) :=
  [("**.py", "python"); ("**.html", "openlibrary.i18n:extract_templetor")].

Definition COMMENT_TAGS : list string := ["NOTE:"].

(** The body of the loop over one directory's occurrences. *)
Definition tally_step (state : list (string * nat) * Catalog) (o : occurrence)
    : list (string * nat) * Catalog :=
  let (counts, catalog) := state in
  (count_file counts (occ_filename o),
   Catalog_add catalog (occ_message o) (occ_filename o, occ_lineno o) (occ_comments o)).

Definition count_line (d : string) (entry : string * nat) : string :=
  let (filename, count) := entry in
  let path := if String.eqb d filename then filename else posix_join d filename in
  pretty count +:+ tab +:+ path.

Definition extract_messages (dirs : list string) : M unit :=
  let catalog :=
    {| mime_headers := fresh_headers; header_fuzzy := true; messages := [] |} in
  let* catalog :=
    fold_m dirs (fun catalog d =>
      let* extracted := extract_from_dir d METHODS COMMENT_TAGS true in
      let (counts, catalog) := fold_left tally_step extracted ([], catalog) in
      let* _ := for_each counts (fun entry => print Stderr (count_line d entry)) in
      ret catalog) catalog in
  let path := join root ["messages.pot"] in
  let* f := open_wb path in
  let* _ := write_po f catalog in
  let* _ := close f in
  print Stdout ("wrote template to " +:+ path_str path).

End Template_builder.

(** What the extractor of templates leaves to Python, web.py and babel:
    decoding and encoding, the code generated from a template, the
    Python extractor (which hands back a generator) and [repr] of an
    exception. *)
Class Templating := {
  pyobj : Type;
  generator : Type;
  decode_utf8 : string -> result string;
  generate_code : string -> string -> result string;
  encode_utf8 : string -> result string;
  extract_python : string -> pyobj -> pyobj -> pyobj -> generator;
  repr_exn : exn -> string
}.

(** [instring.replace('\$', '')]: every backslash that a dollar follows
    goes with its dollar, in one pass from the left. *)
Fixpoint remove_escaped_dollars (s : string) : string :=
  match s with
  | EmptyString => EmptyString
  | String c rest =>
      match rest with
      | String d rest' =>
          if Ascii.eqb c (Ascii.ascii_of_nat 92) && Ascii.eqb d (Ascii.ascii_of_nat 36)
          then remove_escaped_dollars rest'
          else String c (remove_escaped_dollars rest)
      | EmptyString => String c EmptyString
      end
  end.

Record fileobj := { fileobj_name : string; fileobj_data : string }.

(** What [extract_templetor] returns: the empty list, or the generator
    of the Python extractor. *)
Inductive extracted {T : Templating} :=
  | NoEntries
  | FromPython (g : generator).

Section Templetor.
Context {T : Templating}.

Definition extract_templetor (f : fileobj) (keywords comment_tags options : pyobj)
    : M extracted :=
  let* code :=
    try_except
      (let* instring := lift (decode_utf8 (fileobj_data f)) in
       let cleaned_string := remove_escaped_dollars instring in
       let* code := lift (generate_code cleaned_string (fileobj_name f)) in
       let* bytes := lift (encode_utf8 code) in
       ret (Some bytes))
      (fun e =>
       let* _ := print Debug ("Failed to extract " +:+ fileobj_name f +:+ ":"
                              +:+ " " +:+ repr_exn e) in
       ret None) in
  match code with
  | Some bytes => ret (FromPython (extract_python bytes keywords comment_tags options))
  | None => ret NoEntries
  end.

End Templetor.

(** The pieces of the template builder seen from outside: the catalog
    it starts from, what one occurrence adds to a catalog, and the
    tally of a list of file names. *)
Definition fresh_catalog {ext : Extraction} : Catalog :=
  {| mime_headers := fresh_headers; header_fuzzy := true; messages := [] |}.

Definition add_occurrence (c : Catalog) (o : occurrence) : Catalog :=
  Catalog_add c (occ_message o) (occ_filename o, occ_lineno o) (occ_comments o).

Definition tally (names : list string) : list (string * nat) :=
  fold_left count_file names [].

(** A sample scan: two files under [openlibrary], one under [scripts],
    and a directory whose scan fails. *)
Definition sample_occurrences (d : string) : list occurrence :=
  if String.eqb d "openlibrary" then
    [ {| occ_filename := "app.py"; occ_lineno := 3; occ_message := ("Hello", None);
         occ_comments := []; occ_context := None |};
      {| occ_filename := "home.html"; occ_lineno := 7; occ_message := ("Goodbye", None);
         occ_comments := ["shown on logout"]; occ_context := None |};
      {| occ_filename := "app.py"; occ_lineno := 9; occ_message := ("Goodbye", None);
         occ_comments := []; occ_context := None |} ]
  else if String.eqb d "scripts" then
    [ {| occ_filename := "run.py"; occ_lineno := 2; occ_message := ("Hello", None);
         occ_comments := []; occ_context := None |} ]
  else [].

Definition sample_extraction : Extraction :=
  {| extract_from_dir := fun d _ _ _ =>
       if String.eqb d "broken" then raise (FileNotFoundError ["broken"])
       else ret (sample_occurrences d);
     fresh_headers := "Project-Id-Version: Open Library" |}.

(** A sample of what the template extractor leans on: text is its own
    encoding, and the generator of code refuses an empty template. *)
Definition sample_templating : Templating :=
  {| pyobj := unit;
     generator := string;
     decode_utf8 := fun data => Ok data;
     generate_code := fun source name =>
       if str_truthy source then Ok ("def __template__(): " +:+ source)
       else Raise (FormatError "empty template");
     encode_utf8 := fun code => Ok code;
     extract_python := fun bytes _ _ _ => bytes;
     repr_exn := fun _ => "Exception()" |}.

Fixpoint has_backslash (s : string) : bool :=
  match s with
  | EmptyString => false
  | String c rest => Ascii.eqb c (Ascii.ascii_of_nat 92) || has_backslash rest
  end.

(** Worlds for the edge cases: one without template and without the
    Spanish locale, and one whose Italian compiled file is not a
    compiled catalog. *)
Definition bare_world : World :=
  {| nodes := list_to_map
       [(["openlibrary"], Dir 493); (root, Dir 493);
        (join root ["fr"], Dir 493);
        (po_path "fr", File 420 (PoText sample_fr))];
     umask := 18; device_full := false; lang := "fr";
     translations_memo := ∅; locale_memo := ∅; locale_data := sample_locales;
     stdout := []; stderr := []; debug := [] |}.

Definition broken_world : World :=
  {| nodes := <[mo_path "it" := File 420 Garbage]> sample_nodes;
     umask := 18; device_full := false; lang := "it";
     translations_memo := ∅; locale_memo := ∅; locale_data := sample_locales;
     stdout := []; stderr := []; debug := [] |}.

(** A compiled catalog with a plural entry, already in the memo of a
    process whose active locale is French. *)
Definition sample_plural : Catalog :=
  {| mime_headers := "Language: fr";
     header_fuzzy := false;
     messages := [Message.mk "one item" (Some "many items")
                    (StrPlural ["un article"; "des articles"]) [] [] false (Some 5)] |}.

Definition plural_world : World :=
  {| nodes := sample_nodes; umask := 18; device_full := false; lang := "fr";
     translations_memo := {[ "fr" := Some (sample_mo_image sample_plural) ]};
     locale_memo := ∅; locale_data := sample_locales;
     stdout := []; stderr := []; debug := [] |}.

(** ** Footprints

    A computation is read-only when it hands the world back as it got
    it, and it keeps an observation of the world when running it, to
    the end or to an exception, leaves that observation as it was. *)
Definition readonly {A} (m : M A) : Prop := forall w, (m w).2 = w.

Definition keeps {A B} (obs : World -> B) (m : M A) : Prop :=
  forall w, obs (m w).2 = obs w.

Definition at_path (p : path) (w : World) : option node := nodes w !! p.

(** Two nodes are of the same kind when both are directories or both
    are files; a computation is conservative when every path that is
    there before it is there after it, with a node of the same kind. *)
Definition same_kind (n n' : node) : Prop :=
  match n, n' with
  | Dir _, Dir _ => True
  | File _ _, File _ _ => True
  | _, _ => False
  end.

Definition conservative {A} (m : M A) : Prop :=
  forall w p n, nodes w !! p = Some n ->
    exists n', nodes (m w).2 !! p = Some n' /\ same_kind n n'.

(** The locale metadata [load_locale] answers with: the memo entry when
    there is one, else what babel knows of the code; and the world
    after the lookup. *)
Definition resolved_locale (w : World) (l : string) : option Locale :=
  match locale_memo w !! l with
  | Some v => v
  | None => locale_data w !! l
  end.

Definition remember_locale (l : string) (w : World) : World :=
  match locale_memo w !! l with
  | Some _ => w
  | None => set_locale_memo (<[l := locale_data w !! l]> (locale_memo w)) w
  end.

(** * Properties *)

Lemma contains_intro before needle after :
  contains needle (before +:+ needle +:+ after).
Proof. by exists before, after. Qed.


(** ** Running the monad *)

Lemma bind_ok {A B} (m : M A) (k : A -> M B) (w w' : World) (a : A) :
  m w = (Ok a, w') -> bind m k w = k a w'.
Proof. unfold bind. by intros ->. Qed.

Lemma bind_raise {A B} (m : M A) (k : A -> M B) (w w' : World) (e : exn) :
  m w = (Raise e, w') -> bind m k w = (Raise e, w').
Proof. unfold bind. by intros ->. Qed.

Lemma bind_assoc {A B C} (m : M A) (k : A -> M B) (k' : B -> M C) (w : World) :
  bind (bind m k) k' w = bind m (fun a => bind (k a) k') w.
Proof. unfold bind. destruct (m w) as [[a|e] w']; done. Qed.

Lemma try_ok {A} (m : M A) (h : exn -> M A) (w w' : World) (a : A) :
  m w = (Ok a, w') -> try_except m h w = (Ok a, w').
Proof. unfold try_except. by intros ->. Qed.

Lemma try_raise {A} (m : M A) (h : exn -> M A) (w w' : World) (e : exn) :
  m w = (Raise e, w') -> try_except m h w = h e w'.
Proof. unfold try_except. by intros ->. Qed.

Ltac mstep tac :=
  erewrite bind_ok by tac; cbv beta iota zeta; rewrite ?bind_assoc.

Ltac mpure := mstep ltac:(reflexivity).

Ltac wsimpl :=
  cbn [nodes umask device_full lang translations_memo locale_memo locale_data
       stdout stderr debug emit set_nodes set_lang set_translations_memo
       set_locale_memo fst snd] in *.

(** ** File-system steps *)

Lemma open_rb_file (p : path) (w : World) (m : N) (d : content) :
  nodes w !! p = Some (File m d) -> open_rb p w = (Ok d, w).
Proof. unfold open_rb. by intros ->. Qed.

Lemma exists_some (p : path) (w : World) (n : node) :
  nodes w !! p = Some n -> os_path_exists p w = (Ok true, w).
Proof. unfold os_path_exists. by intros ->. Qed.

Lemma exists_none (p : path) (w : World) :
  nodes w !! p = None -> os_path_exists p w = (Ok false, w).
Proof. unfold os_path_exists. by intros ->. Qed.

Lemma open_wb_file (p : path) (w : World) (m : N) (d : content) :
  nodes w !! p = Some (File m d) ->
  open_wb p w = (Ok p, set_nodes <[p := File m Empty]> w).
Proof. unfold open_wb. by intros ->. Qed.

Lemma open_wb_new (p : path) (w : World) :
  nodes w !! p = None -> is_dir (nodes w) (dirname p) = true ->
  open_wb p w = (Ok p, set_nodes <[p := File (new_file_mode w) Empty]> w).
Proof. unfold open_wb. by intros -> ->. Qed.

Lemma write_ok (f : path) (d : content) (w : World) :
  device_full w = false -> d <> Empty ->
  write f d w = (Ok tt, set_nodes (alter (set_data d) f) w).
Proof. unfold write. intros ->. by destruct d. Qed.

Lemma write_full (f : path) (d : content) (w : World) :
  device_full w = true -> d <> Empty -> write f d w = (Raise (OSError f), w).
Proof. unfold write. intros ->. by destruct d. Qed.

Lemma write_nodes_other (f p : path) (d : content) (w : World) :
  p <> f -> nodes (write f d w).2 !! p = nodes w !! p.
Proof.
  intros Hne. unfold write. destruct d; try done;
    destruct (device_full w); try done; wsimpl; by rewrite lookup_alter_ne.
Qed.

Lemma open_wb_nodes_other (f p : path) (w : World) :
  p <> f -> nodes (open_wb f w).2 !! p = nodes w !! p.
Proof.
  intros Hne. unfold open_wb. destruct (nodes w !! f) as [[m|m d]|] eqn:E; try done.
  - wsimpl. by rewrite lookup_insert_ne.
  - destruct (is_dir _ _); try done. wsimpl. by rewrite lookup_insert_ne.
Qed.

Lemma for_each_print (s : stream) (lines : list string) (w : World) :
  for_each lines (print s) w = (Ok tt, fold_left (fun w' line => emit s line w') lines w).
Proof.
  revert w. induction lines as [|x lines IH]; intros w; [done|].
  cbn [for_each fold_left]. unfold bind, print at 1, modify. apply IH.
Qed.

Section Validator_facts.
Context {lib : Library}.

Lemma validate_fold locale (l : list Message.t) (acc : list string) :
  fold_left (validate_step locale) l acc
  = acc ++ map (diagnostic locale) (List.filter Message.fuzzy l).
Proof.
  revert acc. induction l as [|m l IH]; intros acc; simpl.
  - by rewrite app_nil_r.
  - rewrite IH. unfold validate_step, diagnostic.
    destruct (Message.fuzzy m); simpl; [|done].
    destruct (lineno_truthy (Message.lineno m)); by rewrite <- app_assoc.
Qed.

Lemma validation_errors_filter catalog locale :
  validation_errors_of catalog locale
  = map (diagnostic locale) (List.filter Message.fuzzy (Catalog_iter catalog)).
Proof. unfold validation_errors_of. by rewrite validate_fold. Qed.

Lemma validate_catalog_result catalog locale w :
  exists w', _validate_catalog catalog locale w
             = (Ok (Nat.eqb (length (validation_errors_of catalog locale)) 0), w')
             /\ (validation_errors_of catalog locale = [] -> w' = w).
Proof.
  unfold _validate_catalog.
  destruct (validation_errors_of catalog locale) as [|e errs] eqn:E.
  - exists w. done.
  - eexists. unfold bind, print at 1 2, modify. rewrite for_each_print.
    split; [reflexivity | discriminate].
Qed.




End Validator_facts.

Section Compiler_facts.
Context {lib : Library}.

(** Compiling touches no path but the output. *)
Lemma compile_translation_frame (po mo p : path) (w : World) :
  p <> mo -> nodes (_compile_translation po mo w).2 !! p = nodes w !! p.
Proof.
  intros Hne. unfold _compile_translation, compile_steps, try_except, bind.
  destruct (open_rb po w) as [[d|e] w1] eqn:E1.
  2:{ unfold open_rb in E1. destruct (nodes w !! po) as [[?|? ?]|]; by inversion E1. }
  assert (w1 = w) as ->.
  { unfold open_rb in E1. destruct (nodes w !! po) as [[?|? ?]|]; by inversion E1. }
  destruct (read_po d w) as [[c|e] w2] eqn:E2.
  2:{ destruct d; by inversion E2. }
  assert (w2 = w) as -> by (destruct d; by inversion E2).
  pose proof (open_wb_nodes_other mo p w Hne) as Hopen.
  destruct (open_wb mo w) as [[f|e] w3] eqn:E3; [|done].
  assert (f = mo) as ->.
  { unfold open_wb in E3. destruct (nodes w !! mo) as [[?|? ?]|];
      [by inversion E3 | by inversion E3 | destruct (is_dir _ _); by inversion E3]. }
  pose proof (write_nodes_other mo p (MoBinary (mo_image c)) w3 Hne) as Hwrite.
  unfold write_mo.
  destruct (write mo (MoBinary (mo_image c)) w3) as [[u|e] w4] eqn:E4;
    cbn in *; congruence.
Qed.

Lemma open_rb_inv (p : path) (w w' : World) (r : result content) :
  open_rb p w = (r, w') ->
  w' = w /\ match r with
            | Ok d => exists m, nodes w !! p = Some (File m d)
            | Raise e => catalog_at w p = None
            end.
Proof.
  unfold open_rb, catalog_at.
  destruct (nodes w !! p) as [[m|m d]|]; intros [= <- <-]; eauto.
Qed.

Lemma read_po_inv (d : content) (w w' : World) (r : result Catalog) :
  read_po d w = (r, w') ->
  w' = w /\ match r with
            | Ok c => d = PoText c \/ (d = Empty /\ c = empty_catalog)
            | Raise e => d = Garbage \/ exists t, d = MoBinary t
            end.
Proof. destruct d; intros [= <- <-]; eauto. Qed.

Lemma open_wb_inv (p : path) (w w' : World) (r : result path) :
  open_wb p w = (r, w') ->
  match r with
  | Ok f => f = p /\ exists m, w' = set_nodes <[p := File m Empty]> w
  | Raise e => w' = w
  end.
Proof.
  unfold open_wb. destruct (nodes w !! p) as [[m|m d]|].
  - by intros [= <- <-].
  - intros [= <- <-]. eauto.
  - destruct (is_dir _ _); intros [= <- <-]; eauto.
Qed.


(** When the working catalog can be read, the device has room and the
    output can be opened, compiling succeeds. *)
Lemma compile_translation_succeeds (po mo : path) (w : World) (c : Catalog) :
  catalog_at w po = Some c ->
  device_full w = false ->
  (exists m d, nodes w !! mo = Some (File m d))
  \/ (nodes w !! mo = None /\ is_dir (nodes w) (dirname mo) = true) ->
  exists w', _compile_translation po mo w = (Ok tt, w').
Proof.
  intros Hc Hfull Hmo.
  unfold _compile_translation, compile_steps.
  assert (exists m d, nodes w !! po = Some (File m d) /\ read_po d w = (Ok c, w))
    as (m0 & d & Hpo & Hread).
  { unfold catalog_at in Hc. destruct (nodes w !! po) as [[?|m0 d]|]; try done.
    exists m0, d. split; [done|]. destruct d; try done; by inversion Hc. }
  assert (exists m, open_wb mo w = (Ok mo, set_nodes <[mo := File m Empty]> w))
    as [m Hopen].
  { destruct Hmo as [(m & d' & Hm)|[Hm Hd]].
    - exists m. by eapply open_wb_file.
    - eexists. by apply open_wb_new. }
  eexists. erewrite try_ok; [reflexivity|].
  mstep ltac:(eapply open_rb_file; exact Hpo).
  mstep ltac:(exact Hread).
  mstep ltac:(exact Hopen).
  mstep ltac:(apply write_ok; [wsimpl; exact Hfull | discriminate]).
  mpure. reflexivity.
Qed.

Lemma compile_translations_one_frame (locale : string) (p : path) (w : World) :
  p <> mo_path locale ->
  nodes (compile_translations [locale] w).2 !! p = nodes w !! p.
Proof.
  intros Hne. unfold compile_translations. cbn [locales_or_all for_each].
  erewrite bind_ok by reflexivity.
  cbn [for_each]. rewrite bind_assoc.
  destruct (nodes w !! join root [locale; "messages.po"]) as [n|] eqn:E.
  - erewrite bind_ok by (eapply exists_some; exact E).
    pose proof (compile_translation_frame (join root [locale; "messages.po"])
                  (join root [locale; "messages.mo"]) p w Hne) as Hc.
    unfold bind. destruct (_compile_translation _ _ w) as [[u|e] w1]; done.
  - erewrite bind_ok by (eapply exists_none; exact E). done.
Qed.

End Compiler_facts.

Section Synchronizer_facts.
Context {lib : Library}.

Lemma find_map_id (existing : Catalog) (msgid : string) (l : list Message.t) :
  find (fun m => String.eqb (Message.id m) msgid) (map (merge_message existing) l)
  = option_map (merge_message existing)
      (find (fun m => String.eqb (Message.id m) msgid) l).
Proof.
  induction l as [|m l IH]; [done|]. cbn [map find].
  replace (Message.id (merge_message existing m)) with (Message.id m).
  - destruct (String.eqb (Message.id m) msgid); [done | apply IH].
  - unfold merge_message. by destruct (Catalog_get existing (Message.id m)).
Qed.

Lemma Catalog_get_update (existing template : Catalog) (msgid : string) :
  Catalog_get (Catalog_update existing template) msgid
  = option_map (merge_message existing) (Catalog_get template msgid).
Proof. apply find_map_id. Qed.

Lemma Catalog_get_id (c : Catalog) (msgid : string) (m : Message.t) :
  Catalog_get c msgid = Some m -> Message.id m = msgid.
Proof.
  unfold Catalog_get. intros H. apply find_some in H as [_ H].
  by apply String.eqb_eq.
Qed.

Lemma po_ne_mo (locale : string) : po_path locale <> mo_path locale.
Proof. unfold po_path, mo_path, join, root. cbn. congruence. Qed.

Lemma sync_one_locale (locale : string) (template existing : Catalog)
    (m1 m2 : N) (w : World) :
  nodes w !! pot_path = Some (File m1 (PoText template)) ->
  nodes w !! po_path locale = Some (File m2 (PoText existing)) ->
  device_full w = false ->
  nodes (update_translations [locale] w).2 !! po_path locale
  = Some (File m2 (PoText (Catalog_update existing template))).
Proof.
  intros Hpot Hpo Hfull.
  unfold update_translations. cbn [locales_or_all].
  mpure.
  mpure.
  mstep ltac:(eapply open_rb_file; wsimpl; exact Hpot).
  mpure.
  cbn [for_each]. rewrite ?bind_assoc.
  mstep ltac:(eapply exists_some; wsimpl; exact Hpo).
  mstep ltac:(eapply open_rb_file; wsimpl; exact Hpo).
  mpure.
  mstep ltac:(eapply open_wb_file; wsimpl; exact Hpo).
  mstep ltac:(apply write_ok; [wsimpl; exact Hfull | discriminate]).
  mpure.
  mpure.
  mpure.
  rewrite compile_translations_one_frame by apply po_ne_mo.
  wsimpl. rewrite lookup_alter_eq, lookup_insert_eq. done.
Qed.

(** The run itself returns when, besides, the compiled file of the
    locale can be opened for writing. *)
Lemma sync_one_locale_returns (locale : string) (template existing : Catalog)
    (m1 m2 : N) (w : World) :
  nodes w !! pot_path = Some (File m1 (PoText template)) ->
  nodes w !! po_path locale = Some (File m2 (PoText existing)) ->
  device_full w = false ->
  (exists m d, nodes w !! mo_path locale = Some (File m d))
  \/ (nodes w !! mo_path locale = None
      /\ is_dir (nodes w) (join root [locale]) = true) ->
  (update_translations [locale] w).1 = Ok tt.
Proof.
  intros Hpot Hpo Hfull Hmo.
  pose proof (po_ne_mo locale) as Hne.
  unfold update_translations. cbn [locales_or_all].
  mpure. mpure.
  mstep ltac:(eapply open_rb_file; wsimpl; exact Hpot).
  mpure.
  cbn [for_each]. rewrite ?bind_assoc.
  mstep ltac:(eapply exists_some; wsimpl; exact Hpo).
  mstep ltac:(eapply open_rb_file; wsimpl; exact Hpo).
  mpure.
  mstep ltac:(eapply open_wb_file; wsimpl; exact Hpo).
  mstep ltac:(apply write_ok; [wsimpl; exact Hfull | discriminate]).
  mpure. mpure. mpure.
  unfold compile_translations. cbn [locales_or_all]. mpure.
  cbn [for_each]. rewrite ?bind_assoc.
  mstep ltac:(eapply exists_some; wsimpl;
              rewrite lookup_alter_eq, lookup_insert_eq; reflexivity).
  match goal with
  | |- context [bind (_compile_translation ?po ?mo) _ ?w1] =>
      destruct (compile_translation_succeeds po mo w1
                  (Catalog_update existing template)) as [w' Hrun]
  end.
  - unfold catalog_at. wsimpl.
    change (join root [locale; "messages.po"]) with (po_path locale).
    by rewrite lookup_alter_eq, lookup_insert_eq.
  - wsimpl. exact Hfull.
  - wsimpl. change (join root [locale; "messages.po"]) with (po_path locale).
    change (join root [locale; "messages.mo"]) with (mo_path locale).
    rewrite lookup_alter_ne, lookup_insert_ne by done.
    destruct Hmo as [Hfile|[Hnone Hdir]]; [by left|right].
    split; [done|].
    change (dirname (mo_path locale)) with (join root [locale]).
    unfold is_dir in *.
    rewrite lookup_alter_ne, lookup_insert_ne; [done| |];
      unfold po_path, join, root; cbn; congruence.
  - by mstep ltac:(exact Hrun).
Qed.

(** C1. Merge preserves content: when the working catalog of a locale
    translates a message id and the template still has that id, running
    [update_translations] for the locale leaves at the working catalog's
    path the merged catalog, in which the id has the same translation
    (and the same fuzzy state). *)
Theorem update_translations_preserves_content (locale msgid : string)
    (template existing : Catalog) (m1 m2 : N) (w : World) (em tm : Message.t) :
  nodes w !! pot_path = Some (File m1 (PoText template)) ->
  nodes w !! po_path locale = Some (File m2 (PoText existing)) ->
  device_full w = false ->
  Catalog_get existing msgid = Some em ->
  Catalog_get template msgid = Some tm ->
  exists merged mm,
    nodes (update_translations [locale] w).2 !! po_path locale
    = Some (File m2 (PoText merged))
    /\ merged = Catalog_update existing template
    /\ Catalog_get merged msgid = Some mm
    /\ Message.id mm = msgid
    /\ Message.string mm = Message.string em
    /\ Message.fuzzy mm = Message.fuzzy em.
Proof.
  intros Hpot Hpo Hfull Hem Htm.
  exists (Catalog_update existing template), (merge_message existing tm).
  split; [by eapply sync_one_locale|]. split; [done|].
  rewrite Catalog_get_update, Htm. split; [done|].
  unfold merge_message. rewrite (Catalog_get_id _ _ _ Htm), Hem. cbn.
  done.
Qed.

(** C4. Merge adds newcomers: a message id that only the template has
    is, after [update_translations] for the locale, in the merged working
    catalog with an empty translation and not fuzzy. *)
Theorem update_translations_adds_newcomers (locale msgid : string)
    (template existing : Catalog) (m1 m2 : N) (w : World) (tm : Message.t) :
  nodes w !! pot_path = Some (File m1 (PoText template)) ->
  nodes w !! po_path locale = Some (File m2 (PoText existing)) ->
  device_full w = false ->
  Catalog_get existing msgid = None ->
  Catalog_get template msgid = Some tm ->
  exists merged mm,
    nodes (update_translations [locale] w).2 !! po_path locale
    = Some (File m2 (PoText merged))
    /\ Catalog_get merged msgid = Some mm
    /\ Message.id mm = msgid
    /\ Message.string mm = StrSingle EmptyString
    /\ Message.fuzzy mm = false.
Proof.
  intros Hpot Hpo Hfull Hem Htm.
  exists (Catalog_update existing template), (merge_message existing tm).
  split; [by eapply sync_one_locale|].
  rewrite Catalog_get_update, Htm. split; [done|].
  unfold merge_message. rewrite (Catalog_get_id _ _ _ Htm), Hem. cbn.
  done.
Qed.

End Synchronizer_facts.

Section Seeding_facts.
Context {lib : Library}.

Lemma chmod_some (p : path) (m : N) (w : World) (n : node) :
  nodes w !! p = Some n ->
  os_chmod p m w = (Ok tt, set_nodes (alter (set_mode m) p) w).
Proof. unfold os_chmod. by intros ->. Qed.

Lemma mode_of_file (p : path) (w : World) (m : N) (d : content) :
  nodes w !! p = Some (File m d) -> mode_of p w = (Ok m, w).
Proof. unfold mode_of. by intros ->. Qed.

Lemma isdir_run (p : path) (w : World) :
  os_path_isdir p w = (Ok (is_dir (nodes w) p), w).
Proof. done. Qed.

(** Copying a template over a path that is free, in a directory. *)
Lemma shutil_copy_new (src dst : path) (w : World) (m : N) (c : Catalog) :
  nodes w !! src = Some (File m (PoText c)) ->
  nodes w !! dst = None ->
  is_dir (nodes w) (dirname dst) = true ->
  device_full w = false ->
  shutil_copy src dst w = (Ok tt, set_nodes <[dst := File m (PoText c)]> w).
Proof.
  intros Hsrc Hdst Hdir Hfull.
  assert (Hne : dst <> src) by congruence.
  unfold shutil_copy.
  assert (Hnd : is_dir (nodes w) dst = false) by (unfold is_dir; by rewrite Hdst).
  mstep ltac:(apply isdir_run).
  rewrite Hnd.
  mstep ltac:(eapply open_rb_file; exact Hsrc).
  mstep ltac:(by apply open_wb_new).
  mstep ltac:(apply write_ok; [wsimpl; exact Hfull | discriminate]).
  mstep ltac:(eapply mode_of_file; wsimpl;
              rewrite lookup_alter_ne, lookup_insert_ne by done; exact Hsrc).
  erewrite chmod_some
    by (wsimpl; rewrite lookup_alter_eq, lookup_insert_eq; reflexivity).
  f_equal. unfold set_nodes. cbn. f_equal.
  apply map_eq. intros q. destruct (decide (q = dst)) as [->|Hq].
  - by rewrite !lookup_alter_eq, !lookup_insert_eq.
  - by rewrite !lookup_alter_ne, !lookup_insert_ne.
Qed.

(** C9, as the code has it.  With the locale directory and the working
    catalog both there, [generate_po] reports it and changes no file.
    With the directory there and the working catalog missing, it copies
    the template to the working catalog's path, with mode 0o666, and
    returns normally.  With the directory missing, it creates it with
    mode 0o777 and copies the template likewise. *)
Theorem generate_po_outcome (locale : string) (rest : list string) (w : World) :
  let po_dir := join root [locale] in
  let po_dest := po_path locale in
  (forall n n', nodes w !! po_dir = Some n -> nodes w !! po_dest = Some n' ->
     generate_po (locale :: rest) w
     = (Ok tt, emit Stdout ("Portable object file already exists at "
                            +:+ path_str po_dest) w))
  /\ (forall m mt template,
        nodes w !! po_dir = Some (Dir m) -> nodes w !! po_dest = None ->
        nodes w !! pot_path = Some (File mt (PoText template)) ->
        device_full w = false ->
        generate_po (locale :: rest) w
        = (Ok tt, emit Stdout ("File created at " +:+ path_str po_dest)
                    (set_nodes <[po_dest := File 438 (PoText template)]> w)))
  /\ (forall mt template,
        nodes w !! po_dir = None -> nodes w !! po_dest = None ->
        is_dir (nodes w) root = true ->
        nodes w !! pot_path = Some (File mt (PoText template)) ->
        device_full w = false ->
        generate_po (locale :: rest) w
        = (Ok tt, emit Stdout ("File created at " +:+ path_str po_dest)
                    (set_nodes (fun fs => <[po_dest := File 438 (PoText template)]>
                                            (<[po_dir := Dir 511]> fs)) w))).
Proof.
  intros po_dir po_dest. unfold generate_po.
  change (join (join root [locale]) ["messages.po"]) with po_dest.
  change (join root [locale]) with po_dir.
  change (join root ["messages.pot"]) with pot_path.
  assert (Hparent : dirname po_dest = po_dir) by done.
  repeat split.
  - intros n n' Hdir Hpo.
    mstep ltac:(eapply exists_some; exact Hdir).
    mstep ltac:(eapply exists_some; exact Hpo).
    reflexivity.
  - intros m mt template Hdir Hpo Hpot Hfull.
    mstep ltac:(eapply exists_some; exact Hdir).
    mstep ltac:(eapply exists_none; exact Hpo).
    mstep ltac:(eapply shutil_copy_new; eauto;
                rewrite Hparent; unfold is_dir; by rewrite Hdir).
    mstep ltac:(eapply chmod_some; wsimpl; apply lookup_insert_eq).
    unfold print, modify. do 2 f_equal. unfold set_nodes. cbn. f_equal.
    apply map_eq. intros q. destruct (decide (q = po_dest)) as [->|Hq].
    + by rewrite lookup_alter_eq, !lookup_insert_eq.
    + by rewrite lookup_alter_ne, !lookup_insert_ne.
  - intros mt template Hdir Hpo Hroot Hpot Hfull.
    assert (Hne1 : po_dir <> pot_path) by congruence.
    assert (Hne2 : po_dir <> po_dest).
    { unfold po_dir, po_dest, po_path, join, root. cbn. congruence. }
    mstep ltac:(eapply exists_none; exact Hdir).
    mstep ltac:(unfold os_mkdir; rewrite Hdir;
                change (dirname po_dir) with root; rewrite Hroot; reflexivity).
    mstep ltac:(eapply chmod_some; wsimpl; apply lookup_insert_eq).
    mstep ltac:(eapply (shutil_copy_new _ _ _ mt template); wsimpl;
                [ by rewrite lookup_alter_ne, lookup_insert_ne
                | by rewrite lookup_alter_ne, lookup_insert_ne
                | rewrite Hparent; unfold is_dir;
                  by rewrite lookup_alter_eq, lookup_insert_eq
                | exact Hfull ]).
    mstep ltac:(eapply chmod_some; wsimpl; apply lookup_insert_eq).
    unfold print, modify. do 2 f_equal. unfold set_nodes. cbn. f_equal.
    apply map_eq. intros q. destruct (decide (q = po_dest)) as [->|Hq].
    + by rewrite lookup_alter_eq, !lookup_insert_eq.
    + rewrite lookup_alter_ne, !lookup_insert_ne by done.
      destruct (decide (q = po_dir)) as [->|Hq'].
      * by rewrite lookup_alter_eq, !lookup_insert_eq.
      * by rewrite lookup_alter_ne, !lookup_insert_ne.
Qed.

End Seeding_facts.

Section Resolver_facts.
Context {lib : Library}.

Lemma bind_ret_r {A} (m : M A) (w : World) : bind m ret w = m w.
Proof. unfold bind, ret. by destruct (m w) as [[a|e] w']. Qed.

Lemma load_translations_run (l : string) (v : option Translations) (w : World) :
  compiled_catalog w l = Some v ->
  load_translations l w = (Ok v, remember l v w).
Proof.
  intros H. unfold compiled_catalog in H.
  unfold remember, load_translations, memoize.
  destruct (translations_memo w !! l) as [v'|] eqn:Hm; [by inversion H|].
  change (join root [l; "messages.mo"]) with (mo_path l).
  destruct (nodes w !! mo_path l) as [[m|m d]|] eqn:E; [done| |].
  - destruct d; try done. inversion H; subst.
    mstep ltac:(eapply exists_some; exact E).
    mstep ltac:(eapply open_rb_file; exact E).
    done.
  - inversion H; subst.
    mstep ltac:(eapply exists_none; exact E). done.
Qed.


Lemma GetText_call_run (message : string) (args : list pyval)
    (kwargs : list (string * pyval)) (v : option Translations) (w : World) :
  compiled_catalog w (lang w) = Some v ->
  GetText_call message args kwargs w
  = substitute (py_or (py_and v (fun t => Translations_ugettext t message)) message)
      args kwargs (remember (lang w) v w).
Proof.
  intros Hv. unfold GetText_call.
  mstep ltac:(reflexivity).
  mstep ltac:(by apply load_translations_run).
  reflexivity.
Qed.

Lemma ungettext_run (s1 s2 : string) (n : Z) (a : list pyval)
    (kw : list (string * pyval)) (v : option Translations) (w : World) :
  compiled_catalog w (lang w) = Some v ->
  ungettext s1 s2 n a kw w
  = substitute
      (if value_truthy (py_and v (fun t => Translations_ungettext t s1 s2 n))
       then default EmptyString (py_and v (fun t => Translations_ungettext t s1 s2 n))
       else if Z.eqb n 1 then s1 else s2)
      a kw (remember (lang w) v w).
Proof.
  intros Hv. unfold ungettext.
  mstep ltac:(reflexivity).
  mstep ltac:(by apply load_translations_run).
  reflexivity.
Qed.

Lemma str_truthy_false (s : string) : str_truthy s = false -> s = EmptyString.
Proof. by destruct s. Qed.

(** A compiled file that is there and cannot be read makes the first
    lookup for the locale raise, and nothing is kept in the memo. *)
Lemma load_translations_unreadable (l : string) (w : World) :
  compiled_catalog w l = None ->
  exists e, load_translations l w = (Raise e, w).
Proof.
  intros H. unfold compiled_catalog in H.
  unfold load_translations, memoize.
  destruct (translations_memo w !! l) as [v'|] eqn:Hm; [done|].
  change (join root [l; "messages.mo"]) with (mo_path l).
  destruct (nodes w !! mo_path l) as [[m|m d]|] eqn:E; [| |done].
  - eexists. mstep ltac:(eapply exists_some; exact E).
    unfold bind, open_rb. by rewrite E.
  - mstep ltac:(eapply exists_some; exact E).
    mstep ltac:(eapply open_rb_file; exact E).
    destruct d; try done; by eexists.
Qed.



(** C3. Plural fallback: when the catalog of the locale yields no usable
    plural value (what it yields is not true, the locale has no catalog,
    or the catalog lacks the plural entry), [ungettext] takes the first
    message for count 1 and the second one otherwise.  With no format
    arguments it returns that message; with positional arguments it
    returns what [%] makes of the message and the arguments, whatever
    the named ones; with named arguments only, what [%] makes of the
    message and the mapping. *)
Theorem ungettext_fallback (s1 s2 : string) (n : Z) (x : pyval) (xs : list pyval)
    (k : string * pyval) (ks kw : list (string * pyval))
    (v : option Translations) (w : World) :
  compiled_catalog w (lang w) = Some v ->
  value_truthy (py_and v (fun t => Translations_ungettext t s1 s2 n)) = false
  \/ v = None
  \/ (exists t, v = Some t /\ plural_forms t !! (s1, plural t n) = None) ->
  let fallback := if Z.eqb n 1 then s1 else s2 in
  let w' := remember (lang w) v w in
  ungettext s1 s2 n [] [] w = (Ok fallback, w')
  /\ ungettext s1 s2 n (x :: xs) kw w = (percent_args fallback (x :: xs), w')
  /\ ungettext s1 s2 n [] (k :: ks) w = (percent_kwargs fallback (k :: ks), w').
Proof.
  intros Hv Hcase fallback w'.
  assert (Hfalse : value_truthy (py_and v (fun t => Translations_ungettext t s1 s2 n))
                   = false
                   \/ default EmptyString (py_and v (fun t => Translations_ungettext t s1 s2 n))
                      = fallback).
  { destruct Hcase as [H | [-> | (t & -> & Ht)]]; [by left | by left |].
    right. cbn. unfold Translations_ungettext. by rewrite Ht. }
  assert (Hvalue : (if value_truthy (py_and v (fun t => Translations_ungettext t s1 s2 n))
                    then default EmptyString
                           (py_and v (fun t => Translations_ungettext t s1 s2 n))
                    else fallback) = fallback).
  { destruct Hfalse as [-> | ->]; [done | by destruct (value_truthy _)]. }
  rewrite !(ungettext_run _ _ _ _ _ v _ Hv). fold w' fallback. rewrite Hvalue.
  repeat split.
Qed.

(** C10. Empty translations: when the compiled catalog maps the message
    to the empty string, [GetText_call] resolves to the message itself;
    when it maps the plural entry to the empty string, [ungettext]
    resolves to the first message for count 1 and to the second one
    otherwise.  The substitution applies to that value, and with no
    format arguments that value is returned. *)
Theorem empty_translation_fallback (message s1 s2 : string) (n : Z)
    (a : list pyval) (kw : list (string * pyval)) (t : Translations) (w : World) :
  compiled_catalog w (lang w) = Some (Some t) ->
  let w' := remember (lang w) (Some t) w in
  (singular t !! message = Some EmptyString ->
   GetText_call message a kw w = substitute message a kw w'
   /\ GetText_call message [] [] w = (Ok message, w'))
  /\ (plural_forms t !! (s1, plural t n) = Some EmptyString ->
      ungettext s1 s2 n a kw w = substitute (if Z.eqb n 1 then s1 else s2) a kw w'
      /\ ungettext s1 s2 n [] [] w = (Ok (if Z.eqb n 1 then s1 else s2), w')).
Proof.
  intros Hv w'. split.
  - intros Ht. rewrite !(GetText_call_run _ _ _ _ _ Hv). fold w'.
    cbn. unfold Translations_ugettext. rewrite Ht. done.
  - intros Ht. rewrite !(ungettext_run _ _ _ _ _ _ _ Hv). fold w'.
    cbn. unfold Translations_ungettext. rewrite Ht. done.
Qed.

(** C5. Lazy re-evaluation: [LazyGetText_call] resolves nothing and
    changes nothing; every conversion of the object it returns (to a
    string, or by concatenation on either side) runs [GetText_call] in
    the world of the conversion.  So a conversion made after the active
    locale has become [l] resolves in the catalog of [l], whatever the
    locale was when the object was made. *)
Theorem lazy_reevaluation (message : string) (args : list pyval)
    (kwargs : list (string * pyval)) (w0 : World) :
  exists lazy,
    LazyGetText_call message args kwargs w0 = (Ok lazy, w0)
    /\ (forall w, LazyObject_str lazy w = GetText_call message args kwargs w)
    /\ (forall w other,
          LazyObject_add lazy other w
          = bind (GetText_call message args kwargs) (fun v => ret (v +:+ other)) w
          /\ LazyObject_radd lazy other w
             = bind (GetText_call message args kwargs) (fun v => ret (other +:+ v)) w)
    /\ (forall w l t value,
          compiled_catalog (set_lang l w) l = Some (Some t) ->
          singular t !! message = Some value -> str_truthy value = true ->
          LazyObject_str lazy (set_lang l w)
          = substitute value args kwargs (remember l (Some t) (set_lang l w))).
Proof.
  eexists. split; [reflexivity|]. cbn [_creator]. repeat split.
  - intros w. unfold LazyObject_str, web_safestr. cbn [_creator]. apply bind_ret_r.
  - intros w l t value Hv Ht Htrue.
    unfold LazyObject_str, web_safestr. cbn [_creator]. rewrite bind_ret_r.
    rewrite (GetText_call_run _ _ _ (Some t)) by done.
    cbn. unfold Translations_ugettext. rewrite Ht. cbn. by rewrite Htrue.
Qed.

(** With a locale babel knows, [gettext_territory] returns the name of
    the territory, or the code itself when the locale has no name for
    it. *)
Lemma gettext_territory_known (code : string) (l : Locale) (w : World) :
  locale_memo w !! lang w = None ->
  locale_data w !! lang w = Some l ->
  gettext_territory code w
  = (Ok (default code (territories l !! code)),
     set_locale_memo (<[lang w := Some l]> (locale_memo w)) w).
Proof.
  intros Hmemo Hdata. unfold gettext_territory.
  mstep ltac:(reflexivity).
  mstep ltac:(unfold load_locale, memoize, try_except, bind, babel_Locale;
              rewrite Hmemo, Hdata; reflexivity).
  reflexivity.
Qed.

End Resolver_facts.

(** * The properties on the sample world *)

Lemma update_translations_preserves_content_witness :
  exists merged mm,
    nodes (update_translations (lib := sample_library) ["fr"] sample_world).2
      !! po_path "fr" = Some (File 420 (PoText merged))
    /\ merged = Catalog_update sample_fr sample_template
    /\ Catalog_get merged "Hello" = Some mm
    /\ Message.id mm = "Hello"
    /\ Message.string mm = StrSingle "Bonjour"
    /\ Message.fuzzy mm = false.
Proof.
  apply (update_translations_preserves_content (lib := sample_library)
           "fr" "Hello" sample_template sample_fr 420 420 sample_world
           (entry "Hello" "Bonjour" false (Some 12))
           (entry "Hello" EmptyString false (Some 10)));
    vm_compute; reflexivity.
Defined.

Lemma update_translations_adds_newcomers_witness :
  exists merged mm,
    nodes (update_translations (lib := sample_library) ["fr"] sample_world).2
      !! po_path "fr" = Some (File 420 (PoText merged))
    /\ Catalog_get merged "Goodbye" = Some mm
    /\ Message.id mm = "Goodbye"
    /\ Message.string mm = StrSingle EmptyString
    /\ Message.fuzzy mm = false.
Proof.
  apply (update_translations_adds_newcomers (lib := sample_library)
           "fr" "Goodbye" sample_template sample_fr 420 420 sample_world
           (entry "Goodbye" EmptyString false (Some 14)));
    vm_compute; reflexivity.
Defined.


(** C9, as stated, fails where the locale directory is there and the
    working catalog is missing: [generate_po] does not fail, it creates
    the working catalog from the template and says so. *)
Lemma generate_po_fills_existing_directory :
  is_dir (nodes sample_world) (join root ["de"]) = true
  /\ nodes sample_world !! po_path "de" = None
  /\ (generate_po ["de"] sample_world).1 = Ok tt
  /\ nodes (generate_po ["de"] sample_world).2 !! po_path "de"
     = Some (File 438 (PoText sample_template))
  /\ stdout (generate_po ["de"] sample_world).2
     = ["File created at openlibrary/i18n/de/messages.po"].
Proof. repeat split; vm_compute; reflexivity. Qed.

Lemma generate_po_outcome_witness :
  generate_po ["fr"] sample_world
  = (Ok tt, emit Stdout ("Portable object file already exists at "
                         +:+ path_str (po_path "fr")) sample_world)
  /\ generate_po ["de"] sample_world
     = (Ok tt, emit Stdout ("File created at " +:+ path_str (po_path "de"))
                 (set_nodes <[po_path "de" := File 438 (PoText sample_template)]>
                    sample_world))
  /\ generate_po ["es"] sample_world
     = (Ok tt, emit Stdout ("File created at " +:+ path_str (po_path "es"))
                 (set_nodes (fun fs => <[po_path "es" := File 438 (PoText sample_template)]>
                                         (<[join root ["es"] := Dir 511]> fs))
                    sample_world)).
Proof.
  split; [|split].
  - eapply (proj1 (generate_po_outcome "fr" [] sample_world));
      vm_compute; reflexivity.
  - eapply (proj1 (proj2 (generate_po_outcome "de" [] sample_world)));
      vm_compute; reflexivity.
  - eapply (proj2 (proj2 (generate_po_outcome "es" [] sample_world)));
      vm_compute; reflexivity.
Defined.



Lemma ungettext_fallback_witness :
  let w' := remember "en" (Some (sample_mo_image sample_en)) sample_world in
  (ungettext (lib := sample_library) "one item" "many items" 1 [] [] sample_world
   = (Ok "one item", w')
   /\ ungettext (lib := sample_library) "one item" "many items" 5 [] [] sample_world
      = (Ok "many items", w'))
  /\ ungettext (lib := sample_library) "one item" "many items" 5 [VInt 5] [] sample_world
     = (Raise (FormatError "not all arguments converted during string formatting"), w')
  /\ ungettext (lib := sample_library) "one item" "many items" 5 [] [("n", VInt 5)]
       sample_world
     = (Ok "many items", w').
Proof.
  intros w'.
  assert (Hcase : forall n : Z,
    value_truthy (py_and (Some (sample_mo_image sample_en))
                    (fun t => Translations_ungettext t "one item" "many items" n)) = false
    \/ Some (sample_mo_image sample_en) = None
    \/ (exists t, Some (sample_mo_image sample_en) = Some t
                  /\ plural_forms t !! ("one item", plural t n) = None)).
  { intros n. right. right. exists (sample_mo_image sample_en). split; [reflexivity|].
    vm_compute. by destruct (Z.eqb n 1). }
  destruct (ungettext_fallback (lib := sample_library) "one item" "many items" 1
              (VInt 5) [] ("n", VInt 5) [] [] (Some (sample_mo_image sample_en))
              sample_world eq_refl (Hcase 1%Z)) as (Hone & _).
  destruct (ungettext_fallback (lib := sample_library) "one item" "many items" 5
              (VInt 5) [] ("n", VInt 5) [] [] (Some (sample_mo_image sample_en))
              sample_world eq_refl (Hcase 5%Z)) as (Hmany & Hargs & Hkw).
  split; [split; [exact Hone | exact Hmany]|]. split; [exact Hargs | exact Hkw].
Defined.


Lemma empty_translation_fallback_witness :
  GetText_call (lib := sample_library) "Hello" [] [] blank_world
  = (Ok "Hello", remember "pt" (Some blank_translations) blank_world)
  /\ ungettext (lib := sample_library) "one item" "many items" 1 [] [] blank_world
     = (Ok "one item", remember "pt" (Some blank_translations) blank_world)
  /\ ungettext (lib := sample_library) "one item" "many items" 7 [] [] blank_world
     = (Ok "many items", remember "pt" (Some blank_translations) blank_world).
Proof.
  split; [|split].
  - apply (proj1 (empty_translation_fallback (lib := sample_library)
                    "Hello" "one item" "many items" 1 [] [] blank_translations
                    blank_world eq_refl)).
    vm_compute. reflexivity.
  - apply (proj2 (empty_translation_fallback (lib := sample_library)
                    "Hello" "one item" "many items" 1 [] [] blank_translations
                    blank_world eq_refl)).
    vm_compute. reflexivity.
  - apply (proj2 (empty_translation_fallback (lib := sample_library)
                    "Hello" "one item" "many items" 7 [] [] blank_translations
                    blank_world eq_refl)).
    vm_compute. reflexivity.
Defined.

Lemma lazy_reevaluation_witness :
  lang sample_world = "en"
  /\ exists lazy,
       LazyGetText_call (lib := sample_library) "Hello" [] [] sample_world
       = (Ok lazy, sample_world)
       /\ (LazyObject_str lazy sample_world).1 = Ok "Hello!"
       /\ (LazyObject_str lazy
             (set_lang "fr" (LazyObject_str lazy sample_world).2)).1 = Ok "Bonjour".
Proof.
  split; [reflexivity|].
  destruct (lazy_reevaluation (lib := sample_library) "Hello" [] [] sample_world)
    as (lazy & Hmake & Hstr & _ & Hlater).
  exists lazy. split; [exact Hmake|]. split.
  - rewrite Hstr. vm_compute. reflexivity.
  - rewrite (Hlater (LazyObject_str lazy sample_world).2 "fr"
               (sample_mo_image sample_fr) "Bonjour").
    + reflexivity.
    + rewrite Hstr. vm_compute. reflexivity.
    + vm_compute. reflexivity.
    + reflexivity.
Defined.

(** C6 fails on the code for a locale babel does not know: [load_locale]
    yields [None] for it, and [gettext_territory] raises on reading the
    territories of [None] instead of returning the code. *)
Lemma gettext_territory_unknown_locale :
  locale_data sample_world !! "xx" = None
  /\ (load_locale "xx" (set_lang "xx" sample_world)).1 = Ok None
  /\ (gettext_territory "FR" (set_lang "xx" sample_world)).1
     = Raise (AttributeError "territories").
Proof. repeat split; vm_compute; reflexivity. Qed.

(** * Further properties: footprints of the offline operations *)

Section Footprints.
Context {lib : Library}.

Lemma readonly_keeps {A B} (obs : World -> B) (m : M A) :
  readonly m -> keeps obs m.
Proof. intros H w. by rewrite H. Qed.

Lemma readonly_ret {A} (a : A) : readonly (ret a).
Proof. done. Qed.

Lemma readonly_raise {A} (e : exn) : readonly (raise (A := A) e).
Proof. done. Qed.

Lemma readonly_lift {A} (r : result A) : readonly (lift r).
Proof. done. Qed.

Lemma readonly_bind {A B} (m : M A) (k : A -> M B) :
  readonly m -> (forall a, readonly (k a)) -> readonly (bind m k).
Proof.
  intros Hm Hk w. unfold bind. specialize (Hm w).
  destruct (m w) as [[a|e] w1]; cbn in *; subst; [apply Hk | done].
Qed.

Lemma readonly_exists (p : path) : readonly (os_path_exists p).
Proof. done. Qed.

Lemma readonly_isdir (p : path) : readonly (os_path_isdir p).
Proof. done. Qed.

Lemma readonly_open_rb (p : path) : readonly (open_rb p).
Proof. intros w. unfold open_rb. by destruct (nodes w !! p) as [[?|? ?]|]. Qed.

Lemma readonly_read_po (d : content) : readonly (read_po d).
Proof. by destruct d. Qed.

Lemma readonly_listdir (p : path) : readonly (os_listdir p).
Proof. intros w. unfold os_listdir. by destruct (nodes w !! p) as [[?|? ?]|]. Qed.

Lemma readonly_filter_m {A} (keep : A -> M bool) (l : list A) :
  (forall x, readonly (keep x)) -> readonly (filter_m keep l).
Proof.
  intros Hk. induction l as [|x l IH]; [done|]. cbn [filter_m].
  apply readonly_bind; [apply Hk|]. intros b.
  apply readonly_bind; [apply IH|]. intros rest. apply readonly_ret.
Qed.

Lemma readonly_get_locales : readonly get_locales.
Proof.
  unfold get_locales. apply readonly_bind; [apply readonly_listdir|].
  intros ds. apply readonly_filter_m. intros d.
  apply readonly_bind; [apply readonly_isdir|].
  intros [|]; [apply readonly_exists | apply readonly_ret].
Qed.

Lemma readonly_locales_or_all (locales : list string) :
  readonly (locales_or_all locales).
Proof. destruct locales; [apply readonly_get_locales | apply readonly_ret]. Qed.

Lemma keeps_bind {A B C} (obs : World -> C) (m : M A) (k : A -> M B) :
  keeps obs m -> (forall a, keeps obs (k a)) -> keeps obs (bind m k).
Proof.
  intros Hm Hk w. unfold bind. specialize (Hm w).
  destruct (m w) as [[a|e] w1]; cbn in *; [by rewrite Hk | done].
Qed.

Lemma keeps_for_each {A C} (obs : World -> C) (l : list A) (body : A -> M unit) :
  (forall x, keeps obs (body x)) -> keeps obs (for_each l body).
Proof.
  intros Hb. induction l as [|x l IH]; [done|]. cbn [for_each].
  apply keeps_bind; [apply Hb | intros _; apply IH].
Qed.

Lemma keeps_print_path (p : path) (s : stream) (line : string) :
  keeps (at_path p) (print s line).
Proof. done. Qed.

Lemma keeps_open_wb (p f : path) : p <> f -> keeps (at_path p) (open_wb f).
Proof. intros Hne w. by apply open_wb_nodes_other. Qed.

Lemma keeps_write (p f : path) (d : content) :
  p <> f -> keeps (at_path p) (write f d).
Proof. intros Hne w. by apply write_nodes_other. Qed.

Lemma keeps_compile_translation (p po mo : path) :
  p <> mo -> keeps (at_path p) (_compile_translation po mo).
Proof. intros Hne w. by apply compile_translation_frame. Qed.

Lemma basename_mo (locale : string) : basename (mo_path locale) = "messages.mo".
Proof. done. Qed.

Lemma basename_po (locale : string) : basename (po_path locale) = "messages.po".
Proof. done. Qed.

Lemma keeps_compile_translations (p : path) (locales : list string) :
  basename p <> "messages.mo" ->
  keeps (at_path p) (compile_translations locales).
Proof.
  intros Hp. unfold compile_translations.
  apply keeps_bind; [apply readonly_keeps, readonly_locales_or_all|].
  intros ls. apply keeps_for_each. intros locale.
  apply keeps_bind; [apply readonly_keeps, readonly_exists|].
  intros [|]; [|done]. apply keeps_compile_translation.
  intros ->. by apply Hp.
Qed.

(** X1. [compile_translations] writes compiled files only: whatever the
    list of locales (the empty list stands for all locales on disk) and
    whether it returns or raises, a path whose last component is not
    [messages.mo] holds after the run what it held before.  The
    template, the working catalogs and the directories are never
    touched. *)
Theorem compile_translations_writes_only_compiled
    (locales : list string) (p : path) (w : World) :
  basename p <> "messages.mo" ->
  nodes (compile_translations locales w).2 !! p = nodes w !! p.
Proof. intros Hp. by apply (keeps_compile_translations p locales Hp w). Qed.

(** X2. A locale without working catalog is passed over in silence: in a
    batch, [compile_translations] does for it nothing at all and goes
    on with the locales that follow. *)
Theorem compile_translations_skips_missing
    (locale next : string) (rest : list string) (w : World) :
  nodes w !! po_path locale = None ->
  compile_translations [locale] w = (Ok tt, w)
  /\ compile_translations (locale :: next :: rest) w
     = compile_translations (next :: rest) w.
Proof.
  intros Hpo. unfold compile_translations. cbn [locales_or_all]. split.
  - mpure. cbn [for_each]. rewrite ?bind_assoc.
    mstep ltac:(eapply exists_none; exact Hpo). reflexivity.
  - mpure. symmetry. mpure. symmetry.
    change (for_each (locale :: next :: rest) ?b)
      with (bind (b locale) (fun _ => for_each (next :: rest) b)).
    cbv beta. rewrite ?bind_assoc.
    mstep ltac:(eapply exists_none; exact Hpo).
    mpure. reflexivity.
Qed.

(** X3. A failure stops the batch: when compiling the first locale of
    the list raises, [compile_translations] raises the same exception
    in the same world, and the locales that follow are not compiled. *)
Theorem compile_translations_stops_at_failure
    (locale : string) (rest : list string) (w w' : World) (n : node) (e : exn) :
  nodes w !! po_path locale = Some n ->
  _compile_translation (po_path locale) (mo_path locale) w = (Raise e, w') ->
  compile_translations (locale :: rest) w = (Raise e, w')
  /\ forall other, other <> locale ->
       nodes w' !! mo_path other = nodes w !! mo_path other.
Proof.
  intros Hpo Hrun. split.
  - unfold compile_translations. cbn [locales_or_all].
    mpure. cbn [for_each]. rewrite ?bind_assoc.
    mstep ltac:(eapply exists_some; exact Hpo).
    by erewrite bind_raise by exact Hrun.
  - intros other Hne.
    pose proof (compile_translation_frame (po_path locale) (mo_path locale)
                  (mo_path other) w) as Hf.
    rewrite Hrun in Hf. apply Hf.
    unfold mo_path, join, root. cbn. congruence.
Qed.

Lemma keeps_update_translations (p : path) (locales : list string) :
  basename p <> "messages.po" -> basename p <> "messages.mo" ->
  keeps (at_path p) (update_translations locales).
Proof.
  intros Hpo Hmo. unfold update_translations.
  apply keeps_bind; [apply readonly_keeps, readonly_locales_or_all|]. intros ls.
  apply keeps_bind; [apply keeps_print_path|]. intros _.
  apply keeps_bind; [apply readonly_keeps, readonly_open_rb|]. intros d.
  apply keeps_bind; [apply readonly_keeps, readonly_read_po|]. intros template.
  apply keeps_bind; [|intros _; by apply keeps_compile_translations].
  apply keeps_for_each. intros locale.
  assert (Hne : p <> join root [locale; "messages.po"]) by (intros ->; by apply Hpo).
  apply keeps_bind; [apply readonly_keeps, readonly_exists|].
  intros [|]; [|apply keeps_print_path].
  apply keeps_bind; [apply readonly_keeps, readonly_open_rb|]. intros d0.
  apply keeps_bind; [apply readonly_keeps, readonly_read_po|]. intros catalog.
  pose proof (keeps_open_wb p _ Hne) as Hopen.
  intros w. unfold bind.
  specialize (Hopen w).
  destruct (open_wb (join root [locale; "messages.po"]) w) as [[f|e] w1] eqn:E;
    [|exact Hopen].
  apply open_wb_inv in E as [-> _].
  pose proof (keeps_write p _ (PoText (Catalog_update catalog template)) Hne w1) as Hw.
  unfold write_po.
  destruct (write _ _ w1) as [[u|e] w2]; cbn in *; unfold at_path in *;
    wsimpl; congruence.
Qed.

(** X4. [update_translations] writes working catalogs and compiled files
    only: whatever the list of locales and whether it returns or
    raises, a path whose last component is neither [messages.po] nor
    [messages.mo] holds after the run what it held before.  In
    particular the template is never modified. *)
Theorem update_translations_footprint (locales : list string) (p : path) (w : World) :
  basename p <> "messages.po" -> basename p <> "messages.mo" ->
  nodes (update_translations locales w).2 !! p = nodes w !! p
  /\ nodes (update_translations locales w).2 !! pot_path = nodes w !! pot_path.
Proof.
  intros Hpo Hmo. split.
  - by apply (keeps_update_translations p locales Hpo Hmo w).
  - by apply (keeps_update_translations pot_path locales).
Qed.

(** X5. Without a template nothing is synchronized: for a list of
    locales that is not empty, [update_translations] raises
    [FileNotFoundError] for the template right after its first line of
    output, before any catalog is read or written. *)
Theorem update_translations_without_template
    (locale : string) (rest : list string) (w : World) :
  nodes w !! pot_path = None ->
  update_translations (locale :: rest) w
  = (Raise (FileNotFoundError pot_path),
     emit Stdout ("Updating " +:+ repr_list (locale :: rest)) w).
Proof.
  intros Hpot. unfold update_translations. cbn [locales_or_all].
  mpure. mpure.
  erewrite bind_raise; [reflexivity|].
  unfold open_rb. wsimpl. change (join root ["messages.pot"]) with pot_path.
  by rewrite Hpot.
Qed.

(** X6. A locale that has no working catalog is reported and left alone:
    [update_translations] for it prints the error line, creates and
    changes no file, compiles nothing and returns normally. *)
Theorem update_translations_uninitialized_locale
    (locale : string) (template : Catalog) (m : N) (w : World) :
  nodes w !! pot_path = Some (File m (PoText template)) ->
  nodes w !! po_path locale = None ->
  update_translations [locale] w
  = (Ok tt,
     emit Stdout ("ERROR: " +:+ path_str (po_path locale) +:+ " does not exist...")
       (emit Stdout ("Updating " +:+ repr_list [locale]) w)).
Proof.
  intros Hpot Hpo. unfold update_translations. cbn [locales_or_all].
  mpure. mpure.
  mstep ltac:(eapply open_rb_file; wsimpl; exact Hpot).
  mpure. cbn [for_each]. rewrite ?bind_assoc.
  mstep ltac:(eapply exists_none; wsimpl; exact Hpo).
  mpure. mpure.
  unfold compile_translations. cbn [locales_or_all]. mpure.
  cbn [for_each]. rewrite ?bind_assoc.
  mstep ltac:(eapply exists_none; wsimpl; exact Hpo).
  reflexivity.
Qed.

(** What a run of [_compile_translation] that returns has done. *)
Lemma compile_translation_returned (po mo : path) (w w' : World) (u : unit) :
  _compile_translation po mo w = (Ok u, w') ->
  exists c m, catalog_at w po = Some c
              /\ nodes w' !! mo = Some (File m (MoBinary (mo_image c))).
Proof.
  unfold _compile_translation, compile_steps, try_except, bind.
  destruct (open_rb po w) as [[d|e] w1] eqn:E1;
    apply open_rb_inv in E1 as [-> H1]; [|done].
  destruct H1 as [m0 H1].
  destruct (read_po d w) as [[c|e] w2] eqn:E2;
    apply read_po_inv in E2 as [-> H2]; [|done].
  destruct (open_wb mo w) as [[f|e] w3] eqn:E3;
    apply open_wb_inv in E3; [|done].
  destruct E3 as [-> [m ->]].
  unfold write_mo, write. wsimpl.
  destruct (device_full w); cbn; [done|]. intros [= Hw]. subst w'.
  exists c, m. split.
  - unfold catalog_at. rewrite H1. by destruct H2 as [->|[-> ->]].
  - wsimpl. by rewrite lookup_alter_eq, lookup_insert_eq.
Qed.

(** X7. Synchronizing recompiles: when [update_translations] has merged
    the working catalog of a locale and the compiled file can be
    written, the run returns, and the compiled file of the locale is the
    image of the catalog that the run has left at the working catalog's
    path; a process that has not looked the locale up yet resolves from
    it, while a process that has keeps what it has in its memo. *)
Theorem update_translations_recompiles (locale : string)
    (template existing : Catalog) (m1 m2 : N) (w : World) :
  nodes w !! pot_path = Some (File m1 (PoText template)) ->
  nodes w !! po_path locale = Some (File m2 (PoText existing)) ->
  device_full w = false ->
  (exists m d, nodes w !! mo_path locale = Some (File m d))
  \/ (nodes w !! mo_path locale = None
      /\ is_dir (nodes w) (join root [locale]) = true) ->
  let w' := (update_translations [locale] w).2 in
  let merged := Catalog_update existing template in
  (update_translations [locale] w).1 = Ok tt
  /\ catalog_at w' (po_path locale) = Some merged
  /\ (exists m, nodes w' !! mo_path locale = Some (File m (MoBinary (mo_image merged))))
  /\ (translations_memo w !! locale = None ->
      compiled_catalog w' locale = Some (Some (mo_image merged)))
  /\ (forall v, translations_memo w !! locale = Some v ->
      compiled_catalog w' locale = Some v).
Proof.
  intros Hpot Hpo Hfull Hmo w' merged.
  pose proof (po_ne_mo locale) as Hne.
  assert (Hrun : exists w4 w5,
             update_translations [locale] w = (Ok tt, w5)
             /\ _compile_translation (po_path locale) (mo_path locale) w4 = (Ok tt, w5)
             /\ catalog_at w4 (po_path locale) = Some merged
             /\ translations_memo w4 = translations_memo w).
  { unfold update_translations. cbn [locales_or_all].
    mpure. mpure.
    mstep ltac:(eapply open_rb_file; wsimpl; exact Hpot).
    mpure. cbn [for_each]. rewrite ?bind_assoc.
    mstep ltac:(eapply exists_some; wsimpl; exact Hpo).
    mstep ltac:(eapply open_rb_file; wsimpl; exact Hpo).
    mpure.
    mstep ltac:(eapply open_wb_file; wsimpl; exact Hpo).
    mstep ltac:(apply write_ok; [wsimpl; exact Hfull | discriminate]).
    mpure. mpure. mpure.
    unfold compile_translations. cbn [locales_or_all]. mpure.
    cbn [for_each]. rewrite ?bind_assoc.
    mstep ltac:(eapply exists_some; wsimpl;
                rewrite lookup_alter_eq, lookup_insert_eq; reflexivity).
    change (join root [locale; "messages.po"]) with (po_path locale).
    change (join root [locale; "messages.mo"]) with (mo_path locale).
    match goal with
    | |- context [bind (_compile_translation ?po ?mo) _ ?w1] =>
        assert (Hcat : catalog_at w1 po = Some merged)
          by (unfold catalog_at; wsimpl;
              by rewrite lookup_alter_eq, lookup_insert_eq);
        destruct (compile_translation_succeeds po mo w1 merged Hcat) as [w5 Hc];
        [ wsimpl; exact Hfull
        | wsimpl; rewrite lookup_alter_ne, lookup_insert_ne by done;
          destruct Hmo as [Hfile|[Hnone Hdir]]; [by left|right];
          split; [done|];
          change (dirname (mo_path locale)) with (join root [locale]);
          unfold is_dir in *;
          rewrite lookup_alter_ne, lookup_insert_ne; [done| |];
          unfold po_path, join, root; cbn; congruence
        | exists w1, w5 ]
    end.
    split; [by mstep ltac:(exact Hc)|]. split; [done|]. split; [done|]. done. }
  destruct Hrun as (w4 & w5 & Hfinal & Hc & Hcat & Hmemo).
  subst w'. rewrite Hfinal. cbn [fst snd].
  destruct (compile_translation_returned _ _ _ _ _ Hc) as (c & m & Hcat' & Hnode).
  assert (c = merged) as -> by congruence.
  assert (Hmemo5 : translations_memo w5 = translations_memo w).
  { rewrite <- Hmemo. clear -Hc.
    unfold _compile_translation, compile_steps, try_except, bind in Hc.
    destruct (open_rb _ w4) as [[d|e] w1] eqn:E1;
      apply open_rb_inv in E1 as [-> _]; [|done].
    destruct (read_po d w4) as [[c|e] w2] eqn:E2;
      apply read_po_inv in E2 as [-> _]; [|done].
    destruct (open_wb _ w4) as [[f|e] w3] eqn:E3;
      apply open_wb_inv in E3; [|done].
    destruct E3 as [-> [m ->]].
    unfold write_mo, write in Hc. wsimpl.
    destruct (device_full w4); cbn in Hc; [done|]. by inversion Hc. }
  split; [done|]. split; [|split; [by exists m|split]].
  - pose proof (compile_translation_frame (po_path locale) (mo_path locale)
                  (po_path locale) w4 Hne) as Hframe.
    rewrite Hc in Hframe. cbn [snd] in Hframe.
    unfold catalog_at in *. by rewrite Hframe.
  - intros Hnone. unfold compiled_catalog. by rewrite Hmemo5, Hnone, Hnode.
  - intros v Hv. unfold compiled_catalog. by rewrite Hmemo5, Hv.
Qed.

End Footprints.

(** * Further properties: locales on disk and validation *)

Section Listing_facts.
Context {lib : Library}.

Lemma child_of_root (q : path) (d : string) :
  (q <> [] /\ dirname q = root) /\ basename q = d <-> q = join root [d].
Proof.
  unfold dirname, basename, join. split.
  - intros [[Hq Hdir] Hbase].
    rewrite (app_removelast_last EmptyString Hq). by rewrite Hdir, Hbase.
  - intros ->. split; [split|].
    + by destruct root.
    + apply removelast_last.
    + apply last_last.
Qed.

Lemma filter_m_pure {A} (keep : A -> M bool) (g : A -> bool) (l : list A) (w : World) :
  (forall x, keep x w = (Ok (g x), w)) ->
  filter_m keep l w = (Ok (List.filter g l), w).
Proof.
  intros Hk. induction l as [|x l IH]; [done|]. cbn [filter_m List.filter].
  mstep ltac:(apply Hk). mstep ltac:(exact IH). by destruct (g x).
Qed.

Lemma listdir_elem (w : World) (d : string) :
  d ∈ omap (fun q : path =>
              if bool_decide (q <> [] /\ dirname q = root)
              then Some (basename q) else None)
           (elements (dom (nodes w)))
  <-> is_Some (nodes w !! join root [d]).
Proof.
  rewrite list_elem_of_omap. split.
  - intros (q & Hq & Hf). case_bool_decide as Hc; [|done].
    assert (Hb : basename q = d) by congruence.
    assert (Heq : q = join root [d]) by by apply child_of_root.
    rewrite <- Heq. by apply elem_of_dom, elem_of_elements.
  - intros Hd. exists (join root [d]). split.
    + by apply elem_of_elements, elem_of_dom.
    + destruct (proj2 (child_of_root (join root [d]) d) eq_refl) as [Hc Hb].
      rewrite bool_decide_eq_true_2 by done. by rewrite Hb.
Qed.

Lemma listdir_NoDup (w : World) :
  NoDup (omap (fun q : path =>
                 if bool_decide (q <> [] /\ dirname q = root)
                 then Some (basename q) else None)
              (elements (dom (nodes w)))).
Proof.
  pose proof (NoDup_elements (dom (nodes w))) as Hnd.
  induction Hnd as [|q l Hq Hnd IH]; [constructor|]. cbn [omap list_omap].
  case_bool_decide as Hc; [|exact IH]. constructor; [|exact IH].
  rewrite list_elem_of_omap. intros (q' & Hq' & Hf).
  case_bool_decide as Hc'; [|done].
  assert (Hb : basename q' = basename q) by congruence.
  assert (q' = q); [|by subst].
  transitivity (join root [basename q]).
  - by apply child_of_root.
  - symmetry. by apply child_of_root.
Qed.

Lemma filter_elem {A} (g : A -> bool) (l : list A) (x : A) :
  x ∈ List.filter g l <-> x ∈ l /\ g x = true.
Proof. rewrite !list_elem_of_In. apply filter_In. Qed.

Lemma filter_NoDup {A} (g : A -> bool) (l : list A) :
  NoDup l -> NoDup (List.filter g l).
Proof.
  induction 1 as [|x l Hx Hnd IH]; [constructor|]. cbn [List.filter].
  destruct (g x); [|exact IH]. constructor; [|exact IH].
  rewrite filter_elem. by intros [? _].
Qed.

(** X8. [get_locales] lists exactly the names under the root that are
    directories holding a [messages.po], each of them once, and changes
    nothing; when the root is not there it raises. *)
Theorem get_locales_lists_working_catalogs (w : World) :
  (forall m, nodes w !! root = Some (Dir m) ->
     exists ls, get_locales w = (Ok ls, w)
       /\ NoDup ls
       /\ forall d, d ∈ ls <->
             is_dir (nodes w) (join root [d]) = true
             /\ is_Some (nodes w !! po_path d))
  /\ (nodes w !! root = None ->
      get_locales w = (Raise (FileNotFoundError root), w)).
Proof.
  split.
  - intros m Hroot. unfold get_locales.
    eexists. split; [|split].
    + mstep ltac:(unfold os_listdir; rewrite Hroot; reflexivity).
      apply (filter_m_pure _ (fun d => is_dir (nodes w) (join root [d])
                                       && bool_decide (is_Some (nodes w !! po_path d)))).
      intros d. mstep ltac:(apply isdir_run).
      destruct (is_dir (nodes w) (join root [d])); [|done].
      unfold os_path_exists, po_path. cbn [andb].
      by destruct (nodes w !! join root [d; "messages.po"]).
    + apply filter_NoDup, listdir_NoDup.
    + intros d. rewrite filter_elem, listdir_elem, andb_true_iff, bool_decide_eq_true.
      split; [by intros [_ ?]|]. intros [Hd Hpo]. split; [|done].
      unfold is_dir in Hd. by destruct (nodes w !! join root [d]).
  - intros Hroot. unfold get_locales.
    erewrite bind_raise; [reflexivity|]. unfold os_listdir. by rewrite Hroot.
Qed.

Lemma stdout_fold_emit (lines : list string) (w : World) :
  let w' := fold_left (fun w0 line => emit Stdout line w0) lines w in
  stdout w' = stdout w ++ lines
  /\ nodes w' = nodes w /\ translations_memo w' = translations_memo w
  /\ stderr w' = stderr w /\ debug w' = debug w.
Proof.
  revert w. induction lines as [|x lines IH]; intros w; cbn.
  - by rewrite app_nil_r.
  - destruct (IH (emit Stdout x w)) as (-> & -> & -> & -> & ->). cbn.
    by rewrite <- app_assoc.
Qed.

Lemma validate_catalog_nodes (catalog : Catalog) (locale : string) (w : World) :
  nodes (_validate_catalog catalog locale w).2 = nodes w.
Proof.
  unfold _validate_catalog.
  destruct (validation_errors_of catalog locale) as [|e errs]; [done|].
  unfold bind, print at 1 2, modify. rewrite for_each_print. cbn [snd ret].
  by destruct (stdout_fold_emit (e :: errs)
                 (emit Stdout "Please correct the following errors before proceeding:"
                    (emit Stdout "Validation failed..." w))) as (_ & -> & _).
Qed.

(** X9. [_validate_catalog] gives one diagnostic for each fuzzy entry
    the catalog yields, the header among them, in catalog order.  A
    valid catalog prints nothing; an invalid one prints the two heading
    lines and then the diagnostics, on standard output.  No file is
    touched. *)
Theorem validate_catalog_report (catalog : Catalog) (locale : string) (w : World) :
  let errors := validation_errors_of catalog locale in
  let w' := (_validate_catalog catalog locale w).2 in
  errors = map (diagnostic locale) (List.filter Message.fuzzy (Catalog_iter catalog))
  /\ length errors = length (List.filter Message.fuzzy (Catalog_iter catalog))
  /\ stdout w'
     = stdout w ++ match errors with
                   | [] => []
                   | _ :: _ => "Validation failed..."
                               :: "Please correct the following errors before proceeding:"
                               :: errors
                   end
  /\ nodes w' = nodes w.
Proof.
  intros errors w'. subst errors w'.
  split; [apply validation_errors_filter|].
  split; [by rewrite validation_errors_filter, length_map|].
  destruct (validation_errors_of catalog locale) as [|e errs] eqn:E.
  - unfold _validate_catalog. rewrite E. cbn. by rewrite app_nil_r.
  - assert (Hrun : (_validate_catalog catalog locale w).2
                   = fold_left (fun w0 line => emit Stdout line w0) (e :: errs)
                       (emit Stdout "Please correct the following errors before proceeding:"
                          (emit Stdout "Validation failed..." w))).
    { unfold _validate_catalog. rewrite E.
      unfold bind, print at 1 2, modify. by rewrite for_each_print. }
    rewrite Hrun.
    destruct (stdout_fold_emit (e :: errs)
                (emit Stdout "Please correct the following errors before proceeding:"
                   (emit Stdout "Validation failed..." w))) as (H1 & H2 & _).
    rewrite H1, H2. cbn. by rewrite <- !app_assoc.
Qed.

(** X10. [validate_translations] answers, for a working catalog that can
    be read, true exactly when the catalog yields no fuzzy entry.
    Without a locale code, and for a locale without working catalog, it
    prints why and answers false.  A working catalog that is an empty
    file is fuzzy: it gets the file-level diagnostic and the answer is
    false.  It never changes a file. *)
Theorem validate_translations_outcome (locale : string) (rest : list string) (w : World) :
  validate_translations [] w
  = (Ok false, emit Stdout "Must include locale code when executing validate." w)
  /\ (nodes w !! po_path locale = None ->
      validate_translations (locale :: rest) w
      = (Ok false, emit Stdout ("Portable object file for locale " +:+ dquote
                                +:+ locale +:+ dquote +:+ " does not exist.") w))
  /\ (forall c, catalog_at w (po_path locale) = Some c ->
      exists ok w', validate_translations (locale :: rest) w = (Ok ok, w')
        /\ (ok = true <-> List.filter Message.fuzzy (Catalog_iter c) = []))
  /\ (forall m, nodes w !! po_path locale = Some (File m Empty) ->
      (validate_translations (locale :: rest) w).1 = Ok false
      /\ stdout (validate_translations (locale :: rest) w).2
         = stdout w ++ ["Validation failed...";
                        "Please correct the following errors before proceeding:";
                        fuzzy_file])
  /\ nodes (validate_translations (locale :: rest) w).2 = nodes w.
Proof.
  split; [done|]. split; [|split; [|split]].
  - intros Hpo. unfold validate_translations.
    mstep ltac:(eapply exists_none; exact Hpo). reflexivity.
  - intros c Hc. unfold validate_translations.
    change (join root [locale; "messages.po"]) with (po_path locale).
    unfold catalog_at in Hc.
    destruct (nodes w !! po_path locale) as [[?|m d]|] eqn:Hpo; try done.
    assert (Hread : read_po d w = (Ok c, w)) by (destruct d; try done; by inversion Hc).
    destruct (validate_catalog_result c locale w) as (w1 & Hrun & _).
    mstep ltac:(eapply exists_some; exact Hpo).
    mstep ltac:(eapply open_rb_file; exact Hpo).
    mstep ltac:(exact Hread).
    mstep ltac:(exact Hrun).
    rewrite validation_errors_filter, length_map.
    destruct (List.filter Message.fuzzy (Catalog_iter c)) as [|x l]; cbn.
    + do 2 eexists. split; [reflexivity|done].
    + do 2 eexists. split; [reflexivity|done].
  - intros m Hpo. unfold validate_translations.
    change (join root [locale; "messages.po"]) with (po_path locale).
    mstep ltac:(eapply exists_some; exact Hpo).
    mstep ltac:(eapply open_rb_file; exact Hpo).
    mstep ltac:(reflexivity).
    unfold _validate_catalog, bind, print, modify. cbn.
    by rewrite <- !app_assoc.
  - unfold validate_translations.
    change (join root [locale; "messages.po"]) with (po_path locale).
    destruct (nodes w !! po_path locale) as [[?|m d]|] eqn:Hpo.
    + mstep ltac:(eapply exists_some; exact Hpo).
      erewrite bind_raise; [done|]. unfold open_rb. by rewrite Hpo.
    + mstep ltac:(eapply exists_some; exact Hpo).
      mstep ltac:(eapply open_rb_file; exact Hpo).
      destruct (read_po d w) as [[c|e] w1] eqn:Hread;
        apply read_po_inv in Hread as Hinv; destruct Hinv as [-> _].
      * mstep ltac:(exact Hread).
        destruct (validate_catalog_result c locale w) as (w1 & Hrun & _).
        pose proof (validate_catalog_nodes c locale w) as Hnodes.
        rewrite Hrun in Hnodes. cbn [snd] in Hnodes.
        mstep ltac:(exact Hrun).
        by destruct (length (validation_errors_of c locale) =? 0)%nat.
      * by erewrite bind_raise by exact Hread.
    + mstep ltac:(eapply exists_none; exact Hpo). done.
Qed.

End Listing_facts.

(** * Further properties: seeding, and what is never removed *)

Section Conservation.
Context {lib : Library}.

Lemma same_kind_refl (n : node) : same_kind n n.
Proof. by destruct n. Qed.

Lemma same_kind_trans (a b c : node) : same_kind a b -> same_kind b c -> same_kind a c.
Proof. by destruct a, b, c. Qed.

Lemma conservative_readonly {A} (m : M A) : readonly m -> conservative m.
Proof. intros H w p n Hn. rewrite H. eauto using same_kind_refl. Qed.

Lemma conservative_bind {A B} (m : M A) (k : A -> M B) :
  conservative m -> (forall a, conservative (k a)) -> conservative (bind m k).
Proof.
  intros Hm Hk w p n Hn. unfold bind. destruct (Hm w p n Hn) as (n1 & H1 & K1).
  destruct (m w) as [[a|e] w1]; cbn in *; [|eauto].
  destruct (Hk a w1 p n1 H1) as (n2 & H2 & K2). eauto using same_kind_trans.
Qed.

Lemma conservative_try {A} (m : M A) (h : exn -> M A) :
  conservative m -> (forall e, conservative (h e)) -> conservative (try_except m h).
Proof.
  intros Hm Hh w p n Hn. unfold try_except. destruct (Hm w p n Hn) as (n1 & H1 & K1).
  destruct (m w) as [[a|e] w1]; cbn in *; [eauto|].
  destruct (Hh e w1 p n1 H1) as (n2 & H2 & K2). eauto using same_kind_trans.
Qed.

Lemma conservative_for_each {A} (l : list A) (body : A -> M unit) :
  (forall x, conservative (body x)) -> conservative (for_each l body).
Proof.
  intros Hb. induction l as [|x l IH]; [by apply conservative_readonly|].
  cbn [for_each]. apply conservative_bind; [apply Hb | intros _; apply IH].
Qed.

Lemma conservative_print (s : stream) (line : string) : conservative (print s line).
Proof. intros w p n Hn. exists n. split; [done | apply same_kind_refl]. Qed.

Lemma conservative_open_wb (f : path) : conservative (open_wb f).
Proof.
  intros w p n Hn. unfold open_wb.
  destruct (nodes w !! f) as [[m|m d]|] eqn:E; cbn.
  - eauto using same_kind_refl.
  - destruct (decide (p = f)) as [->|Hne].
    + rewrite lookup_insert_eq. rewrite E in Hn. inversion Hn. by eexists.
    + rewrite lookup_insert_ne by done. eauto using same_kind_refl.
  - destruct (is_dir _ _); cbn; [|eauto using same_kind_refl].
    destruct (decide (p = f)) as [->|Hne]; [congruence|].
    rewrite lookup_insert_ne by done. eauto using same_kind_refl.
Qed.

Lemma alter_same_kind (g : node -> node) (f p : path) (fs : gmap path node) (n : node) :
  (forall x, same_kind x (g x)) -> fs !! p = Some n ->
  exists n', alter g f fs !! p = Some n' /\ same_kind n n'.
Proof.
  intros Hg Hn. destruct (decide (p = f)) as [->|Hne].
  - rewrite lookup_alter_eq, Hn. cbn. eauto.
  - rewrite lookup_alter_ne by done. eauto using same_kind_refl.
Qed.

Lemma conservative_write (f : path) (d : content) : conservative (write f d).
Proof.
  intros w p n Hn. unfold write.
  destruct d; try (eauto using same_kind_refl);
    (destruct (device_full w); cbn; [eauto using same_kind_refl|];
     apply alter_same_kind; [by intros [] | done]).
Qed.

Lemma conservative_chmod (f : path) (m : N) : conservative (os_chmod f m).
Proof.
  intros w p n Hn. unfold os_chmod.
  destruct (nodes w !! f); cbn; [|eauto using same_kind_refl].
  apply alter_same_kind; [by intros [] | done].
Qed.

Lemma conservative_mkdir (f : path) : conservative (os_mkdir f).
Proof.
  intros w p n Hn. unfold os_mkdir.
  destruct (nodes w !! f) eqn:E; cbn; [eauto using same_kind_refl|].
  destruct (is_dir _ _); cbn; [|eauto using same_kind_refl].
  destruct (decide (p = f)) as [->|Hne]; [congruence|].
  rewrite lookup_insert_ne by done. eauto using same_kind_refl.
Qed.

Lemma conservative_shutil_copy (src dst : path) : conservative (shutil_copy src dst).
Proof.
  unfold shutil_copy.
  apply conservative_bind; [apply conservative_readonly, readonly_isdir|]. intros b.
  apply conservative_bind; [apply conservative_readonly, readonly_open_rb|]. intros d.
  apply conservative_bind; [apply conservative_open_wb|]. intros f.
  apply conservative_bind; [apply conservative_write|]. intros _.
  apply conservative_bind; [|intros m; apply conservative_chmod].
  apply conservative_readonly. intros w. unfold mode_of.
  by destruct (nodes w !! src) as [[?|? ?]|].
Qed.

Lemma conservative_generate_po (args : list string) : conservative (generate_po args).
Proof.
  unfold generate_po. destruct args as [|locale rest]; [apply conservative_print|].
  apply conservative_bind; [apply conservative_readonly, readonly_exists|].
  intros [|].
  - apply conservative_bind; [apply conservative_readonly, readonly_exists|].
    intros [|]; [apply conservative_print|].
    apply conservative_bind; [apply conservative_shutil_copy|]. intros _.
    apply conservative_bind; [apply conservative_chmod|]. intros _.
    apply conservative_print.
  - apply conservative_bind; [apply conservative_mkdir|]. intros _.
    apply conservative_bind; [apply conservative_chmod|]. intros _.
    apply conservative_bind; [apply conservative_shutil_copy|]. intros _.
    apply conservative_bind; [apply conservative_chmod|]. intros _.
    apply conservative_print.
Qed.

Lemma conservative_compile_translation (po mo : path) :
  conservative (_compile_translation po mo).
Proof.
  unfold _compile_translation, compile_steps. apply conservative_try.
  - apply conservative_bind; [apply conservative_readonly, readonly_open_rb|]. intros d.
    apply conservative_bind; [apply conservative_readonly, readonly_read_po|]. intros c.
    apply conservative_bind; [apply conservative_open_wb|]. intros f.
    apply conservative_bind; [apply conservative_write|]. intros _.
    apply conservative_bind; [by apply conservative_readonly|]. intros _.
    apply conservative_print.
  - intros e. apply conservative_bind; [apply conservative_print|]. intros _.
    by apply conservative_readonly.
Qed.

Lemma conservative_compile_translations (locales : list string) :
  conservative (compile_translations locales).
Proof.
  unfold compile_translations.
  apply conservative_bind; [apply conservative_readonly, readonly_locales_or_all|].
  intros ls. apply conservative_for_each. intros locale.
  apply conservative_bind; [apply conservative_readonly, readonly_exists|].
  intros [|]; [apply conservative_compile_translation | by apply conservative_readonly].
Qed.

Lemma conservative_update_translations (locales : list string) :
  conservative (update_translations locales).
Proof.
  unfold update_translations.
  apply conservative_bind; [apply conservative_readonly, readonly_locales_or_all|].
  intros ls. apply conservative_bind; [apply conservative_print|]. intros _.
  apply conservative_bind; [apply conservative_readonly, readonly_open_rb|]. intros d.
  apply conservative_bind; [apply conservative_readonly, readonly_read_po|]. intros t.
  apply conservative_bind; [|intros _; apply conservative_compile_translations].
  apply conservative_for_each. intros locale.
  apply conservative_bind; [apply conservative_readonly, readonly_exists|].
  intros [|]; [|apply conservative_print].
  apply conservative_bind; [apply conservative_readonly, readonly_open_rb|]. intros d0.
  apply conservative_bind; [apply conservative_readonly, readonly_read_po|]. intros c.
  apply conservative_bind; [apply conservative_open_wb|]. intros f.
  apply conservative_bind; [apply conservative_write|]. intros _.
  apply conservative_bind; [by apply conservative_readonly|]. intros _.
  apply conservative_print.
Qed.

(** X11. The maintenance operations remove nothing: a path that is there
    before [generate_po], [compile_translations] or
    [update_translations] runs is there afterwards, as a directory if
    it was one and as a file if it was one, whether the run returns or
    raises. *)
Theorem maintenance_removes_nothing (args : list string) (w : World)
    (p : path) (n : node) :
  nodes w !! p = Some n ->
  (exists n', nodes (generate_po args w).2 !! p = Some n' /\ same_kind n n')
  /\ (exists n', nodes (compile_translations args w).2 !! p = Some n' /\ same_kind n n')
  /\ (exists n', nodes (update_translations args w).2 !! p = Some n' /\ same_kind n n').
Proof.
  intros Hn. split; [|split].
  - by apply conservative_generate_po.
  - by apply conservative_compile_translations.
  - by apply conservative_update_translations.
Qed.

Lemma bind_ok_inv {A B} (m : M A) (k : A -> M B) (w w' : World) (b : B) :
  bind m k w = (Ok b, w') ->
  exists a w1, m w = (Ok a, w1) /\ k a w1 = (Ok b, w').
Proof. unfold bind. destruct (m w) as [[a|e] w1]; [eauto | done]. Qed.

Lemma chmod_ok_inv (p : path) (m : N) (w w' : World) (u : unit) :
  os_chmod p m w = (Ok u, w') -> is_Some (nodes w' !! p).
Proof.
  unfold os_chmod. destruct (nodes w !! p) as [n|] eqn:E; [|done].
  intros [= Hw]. subst w'. wsimpl. rewrite lookup_alter_eq, E. by eexists.
Qed.

Lemma present_after {A} (m : M A) (w : World) (p : path) :
  conservative m -> is_Some (nodes w !! p) -> is_Some (nodes (m w).2 !! p).
Proof. intros Hm [n Hn]. destruct (Hm w p n Hn) as (n' & -> & _). by eexists. Qed.

(** X12. Seeding twice is harmless: after a run of [generate_po] for a
    locale that has returned, the locale directory and the working
    catalog are both there, so a second run for the same locale only
    reports that the catalog exists and changes nothing else. *)
Theorem generate_po_twice (locale : string) (rest rest' : list string) (w : World) :
  (generate_po (locale :: rest) w).1 = Ok tt ->
  let w1 := (generate_po (locale :: rest) w).2 in
  is_Some (nodes w1 !! join root [locale])
  /\ is_Some (nodes w1 !! po_path locale)
  /\ generate_po (locale :: rest') w1
     = (Ok tt, emit Stdout ("Portable object file already exists at "
                            +:+ path_str (po_path locale)) w1).
Proof.
  intros Hok w1.
  assert (Hrun : generate_po (locale :: rest) w = (Ok tt, w1)).
  { subst w1. destruct (generate_po (locale :: rest) w) as [r w']. cbn in *. by subst. }
  clearbody w1. clear Hok.
  assert (Hboth : is_Some (nodes w1 !! join root [locale])
                  /\ is_Some (nodes w1 !! po_path locale)).
  { revert Hrun. unfold generate_po.
    change (join (join root [locale]) ["messages.po"]) with (po_path locale).
    destruct (nodes w !! join root [locale]) as [nd|] eqn:Hdir.
    - mstep ltac:(eapply exists_some; exact Hdir).
      destruct (nodes w !! po_path locale) as [np|] eqn:Hpo.
      + mstep ltac:(eapply exists_some; exact Hpo).
        intros [= <-]. wsimpl. rewrite Hdir, Hpo. by split; eexists.
      + mstep ltac:(eapply exists_none; exact Hpo).
        intros Hrun.
        apply bind_ok_inv in Hrun as ([] & wa & Hcopy & Hrun).
        apply bind_ok_inv in Hrun as ([] & wb & Hchmod & Hrun).
        inversion Hrun; subst w1. wsimpl. split.
        * replace wb with (os_chmod (po_path locale) 438 wa).2 by by rewrite Hchmod.
          apply present_after; [apply conservative_chmod|].
          replace wa with (shutil_copy (join root ["messages.pot"]) (po_path locale) w).2
            by by rewrite Hcopy.
          apply present_after; [apply conservative_shutil_copy|]. by rewrite Hdir.
        * by eapply chmod_ok_inv.
    - mstep ltac:(eapply exists_none; exact Hdir).
      intros Hrun.
      apply bind_ok_inv in Hrun as ([] & wa & Hmk & Hrun).
      apply bind_ok_inv in Hrun as ([] & wb & Hch1 & Hrun).
      apply bind_ok_inv in Hrun as ([] & wc & Hcopy & Hrun).
      apply bind_ok_inv in Hrun as ([] & wd & Hch2 & Hrun).
      inversion Hrun; subst w1. wsimpl. split.
      + replace wd with (os_chmod (po_path locale) 438 wc).2 by by rewrite Hch2.
        apply present_after; [apply conservative_chmod|].
        replace wc with (shutil_copy (join root ["messages.pot"]) (po_path locale) wb).2
          by by rewrite Hcopy.
        apply present_after; [apply conservative_shutil_copy|].
        by eapply chmod_ok_inv.
      + by eapply chmod_ok_inv. }
  destruct Hboth as [[nd Hdir] [np Hpo]].
  split; [by eexists|]. split; [by eexists|].
  unfold generate_po.
  change (join (join root [locale]) ["messages.po"]) with (po_path locale).
  mstep ltac:(eapply exists_some; exact Hdir).
  mstep ltac:(eapply exists_some; exact Hpo).
  reflexivity.
Qed.

(** X13. Seeding a new locale without a template fails half-way:
    [generate_po] raises [FileNotFoundError] for the template after it
    has created the locale directory and given it mode 0o777, and the
    directory stays, empty. *)
Theorem generate_po_without_template (locale : string) (rest : list string) (w : World) :
  locale <> "messages.pot" ->
  nodes w !! join root [locale] = None ->
  is_dir (nodes w) root = true ->
  nodes w !! pot_path = None ->
  let r := generate_po (locale :: rest) w in
  r.1 = Raise (FileNotFoundError pot_path)
  /\ nodes r.2 = <[join root [locale] := Dir 511]> (nodes w)
  /\ stdout r.2 = stdout w.
Proof.
  intros Hname Hdir Hroot Hpot r. subst r. unfold generate_po.
  change (join root ["messages.pot"]) with pot_path.
  assert (Hne : pot_path <> join root [locale])
    by (unfold pot_path, join, root; cbn; congruence).
  mstep ltac:(eapply exists_none; exact Hdir).
  mstep ltac:(unfold os_mkdir; rewrite Hdir;
              change (dirname (join root [locale])) with root; rewrite Hroot;
              reflexivity).
  mstep ltac:(eapply chmod_some; wsimpl; apply lookup_insert_eq).
  erewrite bind_raise.
  2:{ unfold shutil_copy. mstep ltac:(apply isdir_run).
      erewrite bind_raise; [reflexivity|]. unfold open_rb. wsimpl.
      rewrite lookup_alter_ne, lookup_insert_ne by done. by rewrite Hpot. }
  cbn [fst snd]. split; [done|]. split; [|done]. wsimpl.
  apply map_eq. intros q. destruct (decide (q = join root [locale])) as [->|Hq].
  - by rewrite lookup_alter_eq, !lookup_insert_eq.
  - by rewrite lookup_alter_ne, !lookup_insert_ne.
Qed.

End Conservation.

(** * Further properties: the runtime resolver *)

Section Resolver_more.
Context {lib : Library}.

Lemma substitute_world (value : string) (args : list pyval)
    (kwargs : list (string * pyval)) (w w0 : World) :
  substitute value args kwargs w = ((substitute value args kwargs w0).1, w).
Proof. by destruct args, kwargs. Qed.

Lemma remember_hit (l : string) (v : option Translations) (w : World) :
  translations_memo (remember l v w) !! l
  = Some (default v (translations_memo w !! l)).
Proof.
  unfold remember. destruct (translations_memo w !! l) as [v'|] eqn:E.
  - by rewrite E.
  - wsimpl. by rewrite lookup_insert_eq.
Qed.

Lemma compiled_catalog_memo (l : string) (v : option Translations) (w : World) :
  compiled_catalog w l = Some v ->
  translations_memo (remember l v w) !! l = Some v.
Proof.
  intros H. rewrite remember_hit. unfold compiled_catalog in H.
  destruct (translations_memo w !! l); [by inversion H | done].
Qed.

Lemma remember_again (l : string) (v : option Translations) (w : World) :
  translations_memo w !! l = Some v -> remember l v w = w.
Proof. unfold remember. by intros ->. Qed.

(** X14. A message the catalog of the active locale translates to a string
    that is not empty resolves to that string; positional arguments are
    substituted into it when there are some, whatever the named ones,
    and named arguments only when there is no positional one. *)
Theorem gettext_translates (message value : string) (a : pyval) (args : list pyval)
    (k : string * pyval) (kwargs kwargs' : list (string * pyval))
    (t : Translations) (w : World) :
  compiled_catalog w (lang w) = Some (Some t) ->
  singular t !! message = Some value ->
  str_truthy value = true ->
  let w' := remember (lang w) (Some t) w in
  GetText_call message [] [] w = (Ok value, w')
  /\ GetText_call message (a :: args) kwargs' w = (percent_args value (a :: args), w')
  /\ GetText_call message [] (k :: kwargs) w = (percent_kwargs value (k :: kwargs), w').
Proof.
  intros Hv Ht Htrue w'.
  rewrite !(GetText_call_run _ _ _ _ _ Hv). fold w'.
  cbn. unfold Translations_ugettext. rewrite Ht. cbn. rewrite Htrue. done.
Qed.

(** X15. A plural entry the catalog holds with a form that is not empty
    resolves to that form, chosen by the plural rule of the catalog for
    the count, and the second message plays no part. *)
Theorem ungettext_translates (s1 s2 s2' value : string) (n : Z)
    (a : pyval) (args : list pyval) (kw : list (string * pyval))
    (t : Translations) (w : World) :
  compiled_catalog w (lang w) = Some (Some t) ->
  plural_forms t !! (s1, plural t n) = Some value ->
  str_truthy value = true ->
  let w' := remember (lang w) (Some t) w in
  ungettext s1 s2 n [] [] w = (Ok value, w')
  /\ ungettext s1 s2 n [] [] w = ungettext s1 s2' n [] [] w
  /\ ungettext s1 s2 n (a :: args) kw w = (percent_args value (a :: args), w').
Proof.
  intros Hv Ht Htrue w'.
  rewrite !(ungettext_run _ _ _ _ _ _ _ Hv). fold w'.
  cbn. unfold Translations_ungettext. rewrite Ht. cbn. rewrite Htrue. done.
Qed.

Lemma load_translations_world (l : string) (w : World) :
  (load_translations l w).2
  = match compiled_catalog w l with
    | Some v => remember l v w
    | None => w
    end.
Proof.
  destruct (compiled_catalog w l) as [v|] eqn:E.
  - by rewrite (load_translations_run _ _ _ E).
  - destruct (load_translations_unreadable _ _ E) as [e ->]. done.
Qed.

Lemma GetText_call_world (message : string) (args : list pyval)
    (kwargs : list (string * pyval)) (w : World) :
  (GetText_call message args kwargs w).2 = (load_translations (lang w) w).2.
Proof.
  unfold GetText_call. mstep ltac:(reflexivity).
  unfold bind. destruct (load_translations (lang w) w) as [[v|e] w1]; [|done].
  by rewrite (substitute_world _ _ _ w1 w).
Qed.

Lemma ungettext_world (s1 s2 : string) (n : Z) (a : list pyval)
    (kw : list (string * pyval)) (w : World) :
  (ungettext s1 s2 n a kw w).2 = (load_translations (lang w) w).2.
Proof.
  unfold ungettext. mstep ltac:(reflexivity).
  unfold bind. destruct (load_translations (lang w) w) as [[v|e] w1]; [|done].
  by rewrite (substitute_world _ _ _ w1 w).
Qed.

Lemma lookup_world_footprint (l : string) (w : World) :
  let w' := (load_translations l w).2 in
  nodes w' = nodes w /\ lang w' = lang w /\ locale_memo w' = locale_memo w
  /\ stdout w' = stdout w /\ stderr w' = stderr w /\ debug w' = debug w
  /\ (forall l', l' <> l -> translations_memo w' !! l' = translations_memo w !! l')
  /\ (forall v, translations_memo w !! l = Some v ->
        translations_memo w' !! l = Some v).
Proof.
  intros w'. subst w'. rewrite load_translations_world.
  destruct (compiled_catalog w l) as [v|]; [|by repeat split].
  unfold remember. destruct (translations_memo w !! l) as [v'|] eqn:E.
  { repeat split; try done. by intros v0 [= <-]. }
  wsimpl. repeat split; try done.
  intros l' Hne. by rewrite lookup_insert_ne.
Qed.

(** X16. Resolving touches nothing but the memo of compiled catalogs:
    [GetText_call] and [ungettext] leave the files, the active locale,
    the memo of locales and the three output streams as they are,
    change no memo entry of another locale and never replace an entry
    the memo already has. *)
Theorem resolution_footprint (message s2 : string) (n : Z) (args : list pyval)
    (kwargs : list (string * pyval)) (w : World) :
  (GetText_call message args kwargs w).2 = (ungettext message s2 n args kwargs w).2
  /\ let w' := (GetText_call message args kwargs w).2 in
     nodes w' = nodes w /\ lang w' = lang w /\ locale_memo w' = locale_memo w
     /\ stdout w' = stdout w /\ stderr w' = stderr w /\ debug w' = debug w
     /\ (forall l, l <> lang w -> translations_memo w' !! l = translations_memo w !! l)
     /\ (forall v, translations_memo w !! lang w = Some v ->
           translations_memo w' !! lang w = Some v).
Proof.
  split; [by rewrite GetText_call_world, ungettext_world|].
  rewrite GetText_call_world. apply lookup_world_footprint.
Qed.

(** X17. The memo wins over the disk: once a call has looked the active
    locale up, the same call made again, after any change whatever to
    the files, returns the same result and changes nothing.  So a locale
    first resolved before its catalog was compiled stays untranslated
    for the life of the process. *)
Theorem resolution_is_memoized (message : string) (args : list pyval)
    (kwargs : list (string * pyval)) (v : option Translations)
    (f : gmap path node -> gmap path node) (w : World) :
  compiled_catalog w (lang w) = Some v ->
  let first := GetText_call message args kwargs w in
  GetText_call message args kwargs (set_nodes f first.2) = (first.1, set_nodes f first.2)
  /\ (v = None ->
      GetText_call message [] [] (set_nodes f first.2) = (Ok message, set_nodes f first.2)).
Proof.
  intros Hv first. subst first.
  rewrite (GetText_call_run _ _ _ _ _ Hv).
  set (value := py_or _ _).
  rewrite (substitute_world value args kwargs (remember (lang w) v w) w). cbn [fst snd].
  set (w1 := remember (lang w) v w).
  assert (Hmemo : translations_memo (set_nodes f w1) !! lang (set_nodes f w1) = Some v).
  { wsimpl. replace (lang w1) with (lang w).
    - by apply compiled_catalog_memo.
    - subst w1. unfold remember. by destruct (translations_memo w !! lang w). }
  assert (Hv1 : compiled_catalog (set_nodes f w1) (lang (set_nodes f w1)) = Some v).
  { unfold compiled_catalog. by rewrite Hmemo. }
  split.
  - rewrite (GetText_call_run _ _ _ _ _ Hv1), (remember_again _ _ _ Hmemo).
    fold value. apply substitute_world.
  - intros ->. rewrite (GetText_call_run _ _ _ _ _ Hv1), (remember_again _ _ _ Hmemo).
    done.
Qed.

(** X18. A lookup that fails is not remembered: when the compiled file of
    the active locale is there and cannot be read, the call raises and
    leaves the world as it was, and once a readable compiled file has
    taken its place the same call resolves from it. *)
Theorem failed_lookup_is_retried (message : string) (args : list pyval)
    (kwargs : list (string * pyval)) (m : N) (t : Translations) (w : World) :
  compiled_catalog w (lang w) = None ->
  (exists e, GetText_call message args kwargs w = (Raise e, w))
  /\ let w1 := set_nodes <[mo_path (lang w) := File m (MoBinary t)]> w in
     GetText_call message args kwargs w1
     = substitute (py_or (Some (Translations_ugettext t message)) message)
         args kwargs (remember (lang w) (Some t) w1).
Proof.
  intros Hnone. split.
  - destruct (load_translations_unreadable _ _ Hnone) as [e He].
    exists e. unfold GetText_call. mstep ltac:(reflexivity).
    by erewrite bind_raise by exact He.
  - intros w1.
    assert (Hv : compiled_catalog w1 (lang w1) = Some (Some t)).
    { unfold compiled_catalog in *. subst w1. wsimpl.
      destruct (translations_memo w !! lang w); [done|].
      by rewrite lookup_insert_eq. }
    by rewrite (GetText_call_run _ _ _ _ _ Hv).
Qed.

Lemma load_locale_run (l : string) (w : World) :
  load_locale l w = (Ok (resolved_locale w l), remember_locale l w).
Proof.
  unfold load_locale, memoize, resolved_locale, remember_locale.
  destruct (locale_memo w !! l) as [v|]; [done|].
  unfold try_except, bind, babel_Locale.
  by destruct (locale_data w !! l).
Qed.

Lemma remember_locale_again (l : string) (w : World) :
  lang (remember_locale l w) = lang w
  /\ resolved_locale (remember_locale l w) l = resolved_locale w l
  /\ remember_locale l (remember_locale l w) = remember_locale l w.
Proof.
  unfold remember_locale, resolved_locale.
  destruct (locale_memo w !! l) as [v|] eqn:E; [by rewrite E|].
  wsimpl. by rewrite lookup_insert_eq.
Qed.

(** X19. [load_locale] never raises: for every code it answers with the
    metadata babel has for it, or with nothing when babel does not know
    the code, and it keeps the first answer, an unknown code included.
    [gettext_territory] then answers, for a locale that is known, with
    the name the locale has for the territory code or with the code
    itself, and raises [AttributeError] for a locale that is not; asked
    again, both give the same answer and change nothing. *)
Theorem territory_resolution (code : string) (w : World) :
  let w' := remember_locale (lang w) w in
  load_locale (lang w) w = (Ok (resolved_locale w (lang w)), w')
  /\ load_locale (lang w) w' = (Ok (resolved_locale w (lang w)), w')
  /\ gettext_territory code w
     = (match resolved_locale w (lang w) with
        | Some l => Ok (default code (territories l !! code))
        | None => Raise (AttributeError "territories")
        end, w')
  /\ gettext_territory code w' = ((gettext_territory code w).1, w').
Proof.
  intros w'. destruct (remember_locale_again (lang w) w) as (Hlang & Hres & Hrem).
  assert (Hrun : forall v, gettext_territory code v
            = (match resolved_locale v (lang v) with
               | Some l => Ok (default code (territories l !! code))
               | None => Raise (AttributeError "territories")
               end, remember_locale (lang v) v)).
  { intros v. unfold gettext_territory. mstep ltac:(reflexivity).
    mstep ltac:(apply load_locale_run).
    by destruct (resolved_locale v (lang v)). }
  split; [apply load_locale_run|]. split.
  - subst w'. by rewrite load_locale_run, Hres, Hrem.
  - split; [apply Hrun|].
    rewrite (Hrun w'), (Hrun w). subst w'. cbn [fst].
    by rewrite Hlang, Hres, Hrem.
Qed.

(** What a run of [_compile_translation] leaves, whatever its end: the
    memo of compiled catalogs as it was; and after a failure of the
    device, an empty file at the output path. *)
Lemma compile_translation_aftermath (po mo : path) (w w' : World) (r : result unit) :
  _compile_translation po mo w = (r, w') ->
  translations_memo w' = translations_memo w
  /\ (forall p, r = Raise (OSError p) ->
       exists m, nodes w' !! mo = Some (File m Empty)).
Proof.
  unfold _compile_translation, compile_steps, try_except, bind.
  destruct (open_rb po w) as [[d|e] w1] eqn:E1.
  2:{ unfold open_rb in E1. destruct (nodes w !! po) as [[?|? ?]|];
        inversion E1; subst; cbn; intros [= <- <-]; split; done. }
  apply open_rb_inv in E1 as [-> _].
  destruct (read_po d w) as [[c|e] w2] eqn:E2.
  2:{ destruct d; inversion E2; subst; cbn; intros [= <- <-]; split; done. }
  apply read_po_inv in E2 as [-> _].
  destruct (open_wb mo w) as [[f|e] w3] eqn:E3.
  2:{ unfold open_wb in E3. destruct (nodes w !! mo) as [[?|? ?]|];
        [inversion E3; subst; cbn; intros [= <- <-]; split; done
        | done
        | destruct (is_dir _ _); inversion E3; subst; cbn;
          intros [= <- <-]; split; done]. }
  apply open_wb_inv in E3 as [-> [m ->]].
  unfold write_mo, write. wsimpl.
  destruct (device_full w); cbn; intros [= <- <-]; wsimpl.
  - split; [done|]. intros p _. exists m. by rewrite lookup_insert_eq.
  - split; done.
Qed.

(** X20. What has been compiled is what is resolved: after a run of
    [_compile_translation] for a locale that has returned, a process
    that has not looked the locale up yet resolves messages, with that
    locale active, in the image of the catalog that was read from the
    working catalog. *)
Theorem compile_then_resolve (locale message : string) (args : list pyval)
    (kwargs : list (string * pyval)) (w w' : World) (u : unit) :
  _compile_translation (po_path locale) (mo_path locale) w = (Ok u, w') ->
  translations_memo w !! locale = None ->
  exists c,
    catalog_at w (po_path locale) = Some c
    /\ compiled_catalog (set_lang locale w') locale = Some (Some (mo_image c))
    /\ GetText_call message args kwargs (set_lang locale w')
       = substitute (py_or (Some (Translations_ugettext (mo_image c) message)) message)
           args kwargs (remember locale (Some (mo_image c)) (set_lang locale w')).
Proof.
  intros Hrun Hmemo.
  destruct (compile_translation_returned _ _ _ _ _ Hrun) as (c & m & Hcat & Hnode).
  destruct (compile_translation_aftermath _ _ _ _ _ Hrun) as [Hkeep _].
  assert (Hv : compiled_catalog (set_lang locale w') (lang (set_lang locale w'))
               = Some (Some (mo_image c))).
  { unfold compiled_catalog. wsimpl. by rewrite Hkeep, Hmemo, Hnode. }
  exists c. split; [done|]. split; [exact Hv|].
  by rewrite (GetText_call_run _ _ _ _ _ Hv).
Qed.

(** X21. A compilation that fails while writing breaks resolution for the
    locale: the compiled file it leaves is empty, and in a process that
    has not looked the locale up yet a call with that locale active
    raises and leaves the world as it is, so that the next call raises
    as well. *)
Theorem failed_compile_breaks_resolution (locale message : string)
    (args : list pyval) (kwargs : list (string * pyval)) (w w' : World) (p : path) :
  _compile_translation (po_path locale) (mo_path locale) w = (Raise (OSError p), w') ->
  translations_memo w !! locale = None ->
  compiled_catalog (set_lang locale w') locale = None
  /\ (exists e, GetText_call message args kwargs (set_lang locale w')
                = (Raise e, set_lang locale w'))
  /\ exists m, nodes w' !! mo_path locale = Some (File m Empty).
Proof.
  intros Hrun Hmemo.
  destruct (compile_translation_aftermath _ _ _ _ _ Hrun) as [Hkeep Hempty].
  destruct (Hempty p eq_refl) as [m Hnode].
  assert (Hnone : compiled_catalog (set_lang locale w') (lang (set_lang locale w')) = None).
  { unfold compiled_catalog. wsimpl. by rewrite Hkeep, Hmemo, Hnode. }
  split; [exact Hnone|]. split; [|by exists m].
  destruct (load_translations_unreadable _ _ Hnone) as [e He].
  exists e. unfold GetText_call. mstep ltac:(reflexivity).
  by erewrite bind_raise by exact He.
Qed.

End Resolver_more.

(** * Further properties: the template builder *)

#[local] Set Warnings "-clear-no-such-hyp".

Section Tally_facts.

Lemma count_file_keys (counts : list (string * nat)) (x : string) :
  (count_file counts x).*1
  = if bool_decide (x ∈ counts.*1) then counts.*1 else counts.*1 ++ [x].
Proof.
  induction counts as [|[f n] counts IH]; [done|]. cbn [count_file].
  destruct (String.eqb f x) eqn:E.
  - apply String.eqb_eq in E as ->. cbn.
    rewrite bool_decide_eq_true_2; [done | apply list_elem_of_here].
  - apply String.eqb_neq in E. cbn. rewrite IH.
    case_bool_decide as H1; case_bool_decide as H2; try done.
    + exfalso. apply H2. by apply list_elem_of_further.
    + exfalso. apply H1. apply elem_of_cons in H2 as [->|]; done.
Qed.

Lemma count_file_sum (counts : list (string * nat)) (x : string) :
  sum_list (count_file counts x).*2 = S (sum_list counts.*2).
Proof.
  induction counts as [|[f n] counts IH]; [done|]. cbn [count_file].
  destruct (String.eqb f x); cbn; [lia | rewrite IH; lia].
Qed.

Lemma count_file_NoDup (counts : list (string * nat)) (x : string) :
  NoDup counts.*1 -> NoDup (count_file counts x).*1.
Proof.
  intros Hnd. rewrite count_file_keys. case_bool_decide as H; [done|].
  apply NoDup_app. split; [done|]. split; [|apply NoDup_singleton].
  intros y Hy Hx. apply list_elem_of_singleton in Hx as ->. done.
Qed.

Lemma count_file_elem (counts : list (string * nat)) (x f : string) (n : nat) :
  NoDup counts.*1 ->
  (f, n) ∈ count_file counts x
  <-> (f <> x /\ (f, n) ∈ counts)
      \/ (f = x /\ ((exists k, (x, k) ∈ counts /\ n = S k)
                    \/ ((x ∉ counts.*1) /\ n = 1))).
Proof.
  induction counts as [|[g k] counts IH]; intros Hnd.
  - cbn. rewrite list_elem_of_singleton. setoid_rewrite elem_of_nil. naive_solver.
  - cbn in Hnd. apply NoDup_cons in Hnd as [Hg Hnd]. cbn [count_file].
    assert (Hkey : forall j, (g, j) ∈ counts -> False).
    { intros j Hj. apply Hg. apply list_elem_of_fmap. by exists (g, j). }
    destruct (String.eqb g x) eqn:E.
    + apply String.eqb_eq in E as ->. rewrite !elem_of_cons.
      rewrite fmap_cons. cbn [fst]. rewrite not_elem_of_cons.
      setoid_rewrite elem_of_cons.
      split; [|naive_solver (eauto with lia)].
      intros [?|?]; simplify_eq.
      * right. split; [done|]. left. exists k. split; [by left | lia].
      * left. split; [|by right]. intros ->. eauto.
    + apply String.eqb_neq in E. rewrite !elem_of_cons, (IH Hnd).
      rewrite fmap_cons. cbn [fst]. rewrite not_elem_of_cons.
      setoid_rewrite elem_of_cons. naive_solver.
Qed.

(** The tally of a list of file names. *)
Lemma tally_spec (names : list string) :
  let counts := tally names in
  NoDup counts.*1
  /\ sum_list counts.*2 = length names
  /\ forall f n, (f, n) ∈ counts
       <-> f ∈ names /\ n = length (List.filter (String.eqb f) names).
Proof.
  induction names as [|x names IH] using rev_ind.
  - cbn. split; [constructor|]. split; [done|]. intros f n.
    rewrite !elem_of_nil. naive_solver.
  - cbn zeta in *. unfold tally in *. rewrite fold_left_app. cbn [fold_left].
    destruct IH as (Hnd & Hsum & Hel). split; [by apply count_file_NoDup|]. split.
    + rewrite count_file_sum, Hsum, length_app. cbn. lia.
    + intros f n. rewrite (count_file_elem _ _ _ _ Hnd).
      rewrite List.filter_app, length_app, elem_of_app, list_elem_of_singleton.
      cbn [List.filter]. split.
      * intros [[Hne H]|[-> [(k & H & ->)|[H ->]]]].
        -- apply Hel in H as [Hin ->]. split; [by left|].
           apply String.eqb_neq in Hne. rewrite Hne. cbn. lia.
        -- apply Hel in H as [Hin ->]. split; [by right|].
           rewrite String.eqb_refl. cbn. lia.
        -- split; [by right|]. rewrite String.eqb_refl. cbn.
           destruct (List.filter (String.eqb x) names) as [|y l] eqn:Hf; [done|].
           exfalso. apply H.
           assert (Hy : In y (List.filter (String.eqb x) names)) by (rewrite Hf; by left).
           apply filter_In in Hy as [Hy Hxy]. apply String.eqb_eq in Hxy as ->.
           apply list_elem_of_In in Hy.
           apply list_elem_of_fmap.
           exists (y, length (List.filter (String.eqb y) names)).
           split; [done|]. by apply Hel.
      * intros [Hin ->]. destruct (String.eqb f x) eqn:E.
        -- apply String.eqb_eq in E as ->. right. split; [done|].
           destruct (decide (x ∈ names)) as [Hx|Hx].
           ++ left. exists (length (List.filter (String.eqb x) names)).
              split; [by apply Hel|]. cbn. lia.
           ++ right. split.
              ** intros Hk. apply list_elem_of_fmap in Hk as ([y k] & -> & Hk).
                 apply Hel in Hk as [? _]. done.
              ** replace (List.filter (String.eqb x) names) with (@nil string); [done|].
                 symmetry. destruct (List.filter (String.eqb x) names) as [|y l] eqn:Hf;
                   [done|]. exfalso. apply Hx.
                 assert (Hy : In y (List.filter (String.eqb x) names))
                   by (rewrite Hf; by left).
                 apply filter_In in Hy as [Hy Hxy]. apply String.eqb_eq in Hxy as ->.
                 by apply list_elem_of_In.
        -- apply String.eqb_neq in E. left. split; [done|]. apply Hel.
           destruct Hin as [Hin| ->]; [|done]. split; [done|]. cbn. lia.
Qed.

End Tally_facts.

Section Builder_facts.
Context {lib : Library} {ext : Extraction}.

Lemma add_message_ids (msgs : list Message.t) (msgid : string * option string)
    (loc : string * nat) (comments : list string) :
  Message.id <$> add_message msgs msgid loc comments
  = if bool_decide (msgid.1 ∈ Message.id <$> msgs)
    then Message.id <$> msgs else (Message.id <$> msgs) ++ [msgid.1].
Proof.
  induction msgs as [|m msgs IH]; [done|]. cbn [add_message].
  destruct (String.eqb (Message.id m) msgid.1) eqn:E.
  - apply String.eqb_eq in E. rewrite !fmap_cons. cbn.
    rewrite bool_decide_eq_true_2; [done | rewrite E; apply list_elem_of_here].
  - apply String.eqb_neq in E. rewrite !fmap_cons, IH.
    case_bool_decide as H1; case_bool_decide as H2; try done.
    + exfalso. apply H2. by apply list_elem_of_further.
    + exfalso. apply H1. apply elem_of_cons in H2 as [?|?]; [by subst | done].
Qed.

Lemma add_message_fuzzy (msgs : list Message.t) (msgid : string * option string)
    (loc : string * nat) (comments : list string) :
  Forall (fun m => Message.fuzzy m = false) msgs ->
  Forall (fun m => Message.fuzzy m = false) (add_message msgs msgid loc comments).
Proof.
  induction 1 as [|m msgs Hm Hall IH]; cbn [add_message].
  - by repeat constructor.
  - destruct (String.eqb (Message.id m) msgid.1); by constructor.
Qed.

Lemma add_message_find (msgs : list Message.t) (msgid : string * option string)
    (loc : string * nat) (comments : list string) (i : string) :
  find (fun m => String.eqb (Message.id m) i) (add_message msgs msgid loc comments)
  = if String.eqb msgid.1 i
    then Some (match find (fun m => String.eqb (Message.id m) i) msgs with
               | Some m => add_location loc comments m
               | None => Message.mk msgid.1 msgid.2 (StrSingle EmptyString)
                           [loc] comments false None
               end)
    else find (fun m => String.eqb (Message.id m) i) msgs.
Proof.
  induction msgs as [|m msgs IH]; cbn [add_message find].
  - cbn. by destruct (String.eqb msgid.1 i).
  - destruct (String.eqb (Message.id m) msgid.1) eqn:E; cbn [find].
    + apply String.eqb_eq in E. cbn [add_location Message.id]. rewrite E.
      by destruct (String.eqb msgid.1 i).
    + rewrite IH. destruct (String.eqb msgid.1 i) eqn:E2; [|done].
      apply String.eqb_eq in E2. rewrite <- E2, E. done.
Qed.

(** What folding occurrences into a catalog without entries gives. *)
Lemma built_catalog_spec (occs : list occurrence) (c0 : Catalog) :
  messages c0 = [] ->
  let c := fold_left add_occurrence occs c0 in
  mime_headers c = mime_headers c0 /\ header_fuzzy c = header_fuzzy c0
  /\ NoDup (Message.id <$> messages c)
  /\ (forall i, i ∈ Message.id <$> messages c
        <-> exists o, o ∈ occs /\ (occ_message o).1 = i)
  /\ Forall (fun m => Message.fuzzy m = false) (messages c)
  /\ (forall o, o ∈ occs ->
        exists m, Catalog_get c (occ_message o).1 = Some m
                  /\ (occ_filename o, occ_lineno o) ∈ Message.locations m).
Proof.
  intros H0. induction occs as [|o occs IH] using rev_ind.
  - cbn. rewrite H0. repeat split; try done; try constructor.
    + intros H. by apply elem_of_nil in H.
    + intros (o & H & _). by apply elem_of_nil in H.
    + intros o H. by apply elem_of_nil in H.
  - cbn zeta in *. rewrite fold_left_app. cbn [fold_left].
    set (c := fold_left add_occurrence occs c0) in *.
    destruct IH as (Hh & Hf & Hnd & Hids & Hfz & Hloc).
    unfold add_occurrence at 1 2 3 4 5 6. unfold Catalog_add. cbn [mime_headers header_fuzzy messages].
    split; [done|]. split; [done|]. split; [|split; [|split]].
    + rewrite add_message_ids. case_bool_decide as Hin; [done|].
      apply NoDup_app. split; [done|]. split; [|apply NoDup_singleton].
      intros y Hy Hx. apply list_elem_of_singleton in Hx as ->. done.
    + intros i. rewrite add_message_ids. setoid_rewrite elem_of_app.
      setoid_rewrite list_elem_of_singleton.
      case_bool_decide as Hin.
      * rewrite Hids. split; [naive_solver|].
        intros (o' & [Ho'| ->] & Hi); [eauto|]. subst i. by apply Hids.
      * rewrite elem_of_app, list_elem_of_singleton, Hids. naive_solver.
    + by apply add_message_fuzzy.
    + intros o' Ho'. unfold Catalog_get. cbn [messages]. rewrite add_message_find.
      apply elem_of_app in Ho' as [Ho'|Ho'].
      * destruct (Hloc o' Ho') as (m & Hm & Hl). unfold Catalog_get in Hm.
        destruct (String.eqb (occ_message o).1 (occ_message o').1); [|eauto].
        rewrite Hm. eexists. split; [done|]. cbn. apply elem_of_app. by left.
      * apply list_elem_of_singleton in Ho' as ->. rewrite String.eqb_refl.
        eexists. split; [done|].
        destruct (find _ (messages c)); cbn.
        -- apply elem_of_app. right. apply list_elem_of_here.
        -- apply list_elem_of_here.
Qed.

Lemma tally_step_split (occs : list occurrence) (counts : list (string * nat))
    (c : Catalog) :
  fold_left tally_step occs (counts, c)
  = (fold_left count_file (occ_filename <$> occs) counts,
     fold_left add_occurrence occs c).
Proof.
  revert counts c. induction occs as [|o occs IH]; intros counts c; [done|].
  cbn [fold_left fmap list_fmap]. unfold tally_step at 2. apply IH.
Qed.

Lemma for_each_print_map {A} (s : stream) (line : A -> string) (l : list A) (w : World) :
  for_each l (fun x => print s (line x)) w
  = (Ok tt, fold_left (fun w' x => emit s x w') (line <$> l) w).
Proof.
  revert w. induction l as [|x l IH]; intros w; [done|].
  cbn [for_each fold_left fmap list_fmap]. unfold bind, print at 1, modify. apply IH.
Qed.

Lemma scan_run (dirs : list string) (ex : string -> list occurrence)
    (c : Catalog) (w : World) :
  (forall d w0, d ∈ dirs ->
     extract_from_dir d METHODS COMMENT_TAGS true w0 = (Ok (ex d), w0)) ->
  fold_m dirs (fun catalog d =>
      let* extracted := extract_from_dir d METHODS COMMENT_TAGS true in
      let (counts, catalog) := fold_left tally_step extracted ([], catalog) in
      let* _ := for_each counts (fun entry => print Stderr (count_line d entry)) in
      ret catalog) c w
  = (Ok (fold_left add_occurrence (dirs ≫= ex) c),
     fold_left (fun w' x => emit Stderr x w')
       (dirs ≫= fun d => count_line d <$> tally (occ_filename <$> ex d)) w).
Proof.
  revert c w. induction dirs as [|d dirs IH]; intros c w Hex; [done|].
  cbn [fold_m]. rewrite ?bind_assoc.
  mstep ltac:(apply Hex; apply list_elem_of_here).
  rewrite tally_step_split. cbv beta iota zeta. rewrite ?bind_assoc.
  mstep ltac:(apply for_each_print_map).
  mstep ltac:(reflexivity).
  rewrite IH by (intros d' w0 Hd'; apply Hex; by apply list_elem_of_further).
  cbn [mbind list_bind]. by rewrite fold_left_app, fold_left_app.
Qed.

Lemma fold_emit_stderr (lines : list string) (w : World) :
  let w' := fold_left (fun w0 line => emit Stderr line w0) lines w in
  stderr w' = stderr w ++ lines
  /\ nodes w' = nodes w /\ stdout w' = stdout w /\ device_full w' = device_full w
  /\ umask w' = umask w.
Proof.
  revert w. induction lines as [|x lines IH]; intros w; cbn.
  - by rewrite app_nil_r.
  - destruct (IH (emit Stderr x w)) as (-> & -> & -> & -> & ->). cbn.
    by rewrite <- app_assoc.
Qed.

Lemma extract_messages_run (dirs : list string) (ex : string -> list occurrence)
    (w : World) :
  (forall d w0, d ∈ dirs ->
     extract_from_dir d METHODS COMMENT_TAGS true w0 = (Ok (ex d), w0)) ->
  device_full w = false ->
  (exists m d0, nodes w !! pot_path = Some (File m d0))
  \/ (nodes w !! pot_path = None /\ is_dir (nodes w) root = true) ->
  exists w' m,
    extract_messages dirs w = (Ok tt, w')
    /\ nodes w' = <[pot_path := File m
                      (PoText (fold_left add_occurrence (dirs ≫= ex) fresh_catalog))]>
                    (nodes w)
    /\ stderr w' = stderr w
                   ++ (dirs ≫= fun d => count_line d <$> tally (occ_filename <$> ex d))
    /\ stdout w' = stdout w ++ ["wrote template to openlibrary/i18n/messages.pot"].
Proof.
  intros Hex Hfull Hpot. unfold extract_messages.
  change (join root ["messages.pot"]) with pot_path.
  set (lines := dirs ≫= fun d => count_line d <$> tally (occ_filename <$> ex d)).
  destruct (fold_emit_stderr lines w) as (Herr & Hnodes & Hout & Hdev & Hum).
  set (w1 := fold_left (fun w0 line => emit Stderr line w0) lines w) in *.
  assert (exists m, open_wb pot_path w1 = (Ok pot_path, set_nodes <[pot_path := File m Empty]> w1))
    as [m Hopen].
  { destruct Hpot as [(m & d0 & Hm)|[Hnone Hdir]].
    - exists m. eapply open_wb_file. rewrite Hnodes. exact Hm.
    - eexists. apply open_wb_new; rewrite Hnodes; [done|].
      by change (dirname pot_path) with root. }
  exists (emit Stdout ("wrote template to " +:+ path_str pot_path)
            (set_nodes (alter (set_data (PoText (fold_left add_occurrence (dirs ≫= ex)
                                                    fresh_catalog))) pot_path)
               (set_nodes <[pot_path := File m Empty]> w1))), m.
  split; [|split; [|split]].
  - mstep ltac:(by apply scan_run).
    mstep ltac:(exact Hopen).
    mstep ltac:(apply write_ok; [wsimpl; by rewrite Hdev | discriminate]).
    mstep ltac:(reflexivity). reflexivity.
  - wsimpl. rewrite Hnodes. apply map_eq. intros q.
    destruct (decide (q = pot_path)) as [->|Hq].
    + by rewrite lookup_alter_eq, !lookup_insert_eq.
    + by rewrite lookup_alter_ne, !lookup_insert_ne.
  - wsimpl. exact Herr.
  - wsimpl. by rewrite Hout.
Qed.

Lemma filter_fuzzy_none (l : list Message.t) :
  Forall (fun m => Message.fuzzy m = false) l -> List.filter Message.fuzzy l = [].
Proof. induction 1 as [|x l Hx _ IH]; [done|]. cbn. by rewrite Hx. Qed.

(** X22. The template is built anew from the scan: when every directory
    can be scanned and the template file can be written,
    [extract_messages] returns and leaves at the template's path,
    whatever was there, a catalog that holds every message id the scan
    has yielded and no other, each once; no entry is fuzzy, and each
    occurrence is among the locations of its message.  No other path is
    changed.  The header of the template is fuzzy, as that of every
    catalog babel makes anew: validating the template, or a working
    catalog copied from it, gives the file-level diagnostic and nothing
    else. *)
Theorem extract_messages_rebuilds_template (dirs : list string)
    (ex : string -> list occurrence) (w : World) :
  (forall d w0, d ∈ dirs ->
     extract_from_dir d METHODS COMMENT_TAGS true w0 = (Ok (ex d), w0)) ->
  device_full w = false ->
  (exists m d0, nodes w !! pot_path = Some (File m d0))
  \/ (nodes w !! pot_path = None /\ is_dir (nodes w) root = true) ->
  let template := fold_left add_occurrence (dirs ≫= ex) fresh_catalog in
  (exists w' m,
     extract_messages dirs w = (Ok tt, w')
     /\ nodes w' = <[pot_path := File m (PoText template)]> (nodes w))
  /\ NoDup (Message.id <$> messages template)
  /\ (forall i, i ∈ Message.id <$> messages template
        <-> exists o, o ∈ dirs ≫= ex /\ (occ_message o).1 = i)
  /\ Forall (fun m => Message.fuzzy m = false) (messages template)
  /\ (forall o, o ∈ dirs ≫= ex ->
        exists m, Catalog_get template (occ_message o).1 = Some m
                  /\ (occ_filename o, occ_lineno o) ∈ Message.locations m)
  /\ header_fuzzy template = true
  /\ (forall locale w0,
        (_validate_catalog template locale w0).1 = Ok false
        /\ stdout (_validate_catalog template locale w0).2
           = stdout w0 ++ ["Validation failed...";
                           "Please correct the following errors before proceeding:";
                           fuzzy_file]).
Proof.
  intros Hex Hfull Hpot template.
  destruct (extract_messages_run dirs ex w Hex Hfull Hpot) as (w' & m & Hrun & Hnodes & _).
  destruct (built_catalog_spec (dirs ≫= ex) fresh_catalog eq_refl)
    as (_ & Hfz & Hnd & Hids & Hall & Hloc).
  fold template in Hfz, Hnd, Hids, Hall, Hloc.
  split; [by exists w', m|]. do 4 (split; [done|]). split; [exact Hfz|].
  intros locale w0.
  assert (Herrs : validation_errors_of template locale = [fuzzy_file]).
  { unfold validation_errors_of. rewrite validate_fold.
    unfold Catalog_iter. cbn [List.filter header_message Message.fuzzy].
    rewrite Hfz. cbn [fresh_catalog header_fuzzy map app diagnostic].
    by rewrite (filter_fuzzy_none _ Hall). }
  unfold _validate_catalog. rewrite Herrs.
  unfold bind, print, modify. cbn. by rewrite <- !app_assoc.
Qed.

(** X23. The counts on standard error are right: for each directory, in
    turn, [extract_messages] prints one line for each file that has
    yielded a message: the number of messages the file has yielded, in
    decimal, a tab, and the path of the file, which is the file name
    joined to the directory unless the two are equal.  No file has two
    lines and the numbers of a directory add up to the number of its
    occurrences.  The last line on standard output names the template. *)
Theorem extract_messages_reports_counts (dirs : list string)
    (ex : string -> list occurrence) (w : World) :
  (forall d w0, d ∈ dirs ->
     extract_from_dir d METHODS COMMENT_TAGS true w0 = (Ok (ex d), w0)) ->
  device_full w = false ->
  (exists m d0, nodes w !! pot_path = Some (File m d0))
  \/ (nodes w !! pot_path = None /\ is_dir (nodes w) root = true) ->
  let w' := (extract_messages dirs w).2 in
  stderr w'
  = stderr w
    ++ (dirs ≫= fun d =>
          (fun entry : string * nat =>
             pretty entry.2
             +:+ String (Ascii.ascii_of_nat 9)
                   (if String.eqb d entry.1 then entry.1 else posix_join d entry.1))
          <$> tally (occ_filename <$> ex d))
  /\ (forall d f, str_truthy d = true -> ends_with_slash d = false ->
        starts_with_slash f = false -> posix_join d f = d +:+ "/" +:+ f)
  /\ stdout w' = stdout w ++ ["wrote template to openlibrary/i18n/messages.pot"]
  /\ forall d,
       NoDup (tally (occ_filename <$> ex d)).*1
       /\ sum_list (tally (occ_filename <$> ex d)).*2 = length (ex d)
       /\ forall f n, (f, n) ∈ tally (occ_filename <$> ex d)
            <-> f ∈ occ_filename <$> ex d
                /\ n = length (List.filter (fun o => String.eqb f (occ_filename o)) (ex d)).
Proof.
  intros Hex Hfull Hpot w'.
  destruct (extract_messages_run dirs ex w Hex Hfull Hpot) as (w1 & m & Hrun & _ & Herr & Hout).
  subst w'. rewrite Hrun. cbn [snd]. split.
  { rewrite Herr. f_equal. clear. induction dirs as [|d dirs IH]; [done|].
    cbn [mbind list_bind]. f_equal; [|exact IH].
    apply list_fmap_ext. intros _ [f n] _. reflexivity. }
  split.
  { intros d f Hd Hend Hf. unfold posix_join. by rewrite Hf, Hd, Hend. }
  split; [done|].
  intros d. destruct (tally_spec (occ_filename <$> ex d)) as (Hnd & Hsum & Hel).
  split; [done|]. split; [by rewrite Hsum, length_fmap|].
  intros f n. rewrite Hel. split; intros [Hin ->]; (split; [done|]).
  - clear. induction (ex d) as [|o l IH]; [done|]. cbn.
    destruct (String.eqb f (occ_filename o)); cbn; by rewrite IH.
  - clear. induction (ex d) as [|o l IH]; [done|]. cbn.
    destruct (String.eqb f (occ_filename o)); cbn; by rewrite IH.
Qed.

(** X24. A scan that fails leaves the template alone: when the scan of a
    directory raises, after directories that could be scanned,
    [extract_messages] raises the same exception; the counts of the
    earlier directories have been printed, the template file has not
    been opened and no file is changed. *)
Theorem extract_messages_scan_failure (before after : list string) (d : string)
    (ex : string -> list occurrence) (e : exn) (w : World) :
  (forall d' w0, d' ∈ before ->
     extract_from_dir d' METHODS COMMENT_TAGS true w0 = (Ok (ex d'), w0)) ->
  (forall w0, extract_from_dir d METHODS COMMENT_TAGS true w0 = (Raise e, w0)) ->
  let r := extract_messages (before ++ d :: after) w in
  r.1 = Raise e
  /\ nodes r.2 = nodes w
  /\ stdout r.2 = stdout w
  /\ stderr r.2 = stderr w
                  ++ (before ≫= fun d' => count_line d' <$> tally (occ_filename <$> ex d')).
Proof.
  intros Hex Hfail r. subst r. unfold extract_messages.
  set (lines := before ≫= fun d' => count_line d' <$> tally (occ_filename <$> ex d')).
  destruct (fold_emit_stderr lines w) as (Herr & Hnodes & Hout & _).
  assert (Hscan : forall c w0,
    fold_m (before ++ d :: after) (fun catalog d0 =>
      let* extracted := extract_from_dir d0 METHODS COMMENT_TAGS true in
      let (counts, catalog) := fold_left tally_step extracted ([], catalog) in
      let* _ := for_each counts (fun entry => print Stderr (count_line d0 entry)) in
      ret catalog) c w0
    = (Raise e, fold_left (fun w' x => emit Stderr x w')
                  (before ≫= fun d' => count_line d' <$> tally (occ_filename <$> ex d')) w0)).
  { clear -Hex Hfail. induction before as [|b before IH]; intros c w0.
    - cbn [app fold_m]. rewrite ?bind_assoc. by erewrite bind_raise by apply Hfail.
    - cbn [app fold_m]. rewrite ?bind_assoc.
      mstep ltac:(apply Hex; apply list_elem_of_here).
      rewrite tally_step_split. cbv beta iota zeta. rewrite ?bind_assoc.
      mstep ltac:(apply for_each_print_map).
      mstep ltac:(reflexivity).
      rewrite IH by (intros d' w1 Hd'; apply Hex; by apply list_elem_of_further).
      cbn [mbind list_bind]. by rewrite fold_left_app. }
  erewrite bind_raise by apply Hscan. cbn [fst snd]. fold lines. done.
Qed.

End Builder_facts.

(** * Further properties: the extractor of templates *)

Section Templetor_facts.
Context {T : Templating}.

(** [extract_templetor] never raises: when decoding the file,
    generating code from the cleaned source or encoding that code
    fails, it writes one line on the debug stream and returns no
    entries; otherwise it hands the encoded code, with the arguments it
    was given, to the Python extractor and changes nothing. *)
Lemma extract_templetor_never_raises (f : fileobj)
    (keywords comment_tags options : pyobj) (w : World) :
  let failed e :=
    (Ok NoEntries,
     emit Debug ("Failed to extract " +:+ fileobj_name f +:+ ":" +:+ " " +:+ repr_exn e) w) in
  extract_templetor f keywords comment_tags options w
  = match decode_utf8 (fileobj_data f) with
    | Raise e => failed e
    | Ok instring =>
        match generate_code (remove_escaped_dollars instring) (fileobj_name f) with
        | Raise e => failed e
        | Ok code =>
            match encode_utf8 code with
            | Raise e => failed e
            | Ok bytes =>
                (Ok (FromPython (extract_python bytes keywords comment_tags options)), w)
            end
        end
    end.
Proof.
  intros failed. unfold extract_templetor, try_except, bind, lift.
  destruct (decode_utf8 (fileobj_data f)) as [instring|e]; [|done].
  destruct (generate_code _ _) as [code|e]; [|done].
  by destruct (encode_utf8 code) as [bytes|e].
Qed.

End Templetor_facts.

Lemma string_length_cons (c : Ascii.ascii) (s : string) :
  String.length (String c s) = S (String.length s).
Proof. reflexivity. Qed.

Lemma remove_escaped_dollars_cons (c d : Ascii.ascii) (rest : string) :
  remove_escaped_dollars (String c (String d rest))
  = if Ascii.eqb c (Ascii.ascii_of_nat 92) && Ascii.eqb d (Ascii.ascii_of_nat 36)
    then remove_escaped_dollars rest
    else String c (remove_escaped_dollars (String d rest)).
Proof. reflexivity. Qed.

Lemma remove_escaped_dollars_length (n : nat) (s : string) :
  String.length s <= n ->
  exists k, String.length s = String.length (remove_escaped_dollars s) + 2 * k.
Proof.
  revert s. induction n as [|n IH]; intros s Hn.
  - destruct s; [by exists 0 | rewrite string_length_cons in Hn; lia].
  - destruct s as [|c [|d rest]]; [by exists 0 | by exists 0 |].
    rewrite !string_length_cons in Hn.
    rewrite remove_escaped_dollars_cons.
    destruct (Ascii.eqb c _ && Ascii.eqb d _).
    + destruct (IH rest) as [k Hk]; [lia|].
      exists (S k). rewrite !string_length_cons, Hk. lia.
    + destruct (IH (String d rest)) as [k Hk]; [rewrite string_length_cons; lia|].
      exists k. rewrite string_length_cons, Hk, string_length_cons. lia.
Qed.

(** X25. The cleaning of a template source removes characters in pairs
    and leaves a source without backslash as it is; but what it returns
    may still hold a backslash that a dollar follows, since the pass is
    not repeated: four characters, two backslashes then two dollars,
    come out as a backslash and a dollar. *)
Theorem remove_escaped_dollars_spec (s : string) :
  (has_backslash s = false -> remove_escaped_dollars s = s)
  /\ (exists k, String.length s = String.length (remove_escaped_dollars s) + 2 * k)
  /\ remove_escaped_dollars ("\\$$" +:+ s) = "\$" +:+ remove_escaped_dollars s.
Proof.
  split; [|split].
  - induction s as [|c rest IH]; [done|]. intros H. cbn [has_backslash] in H.
    apply orb_false_iff in H as [Hc Hrest].
    destruct rest as [|d rest']; [done|].
    rewrite remove_escaped_dollars_cons, Hc. cbn [andb].
    f_equal. by apply IH.
  - by apply (remove_escaped_dollars_length (String.length s)).
  - destruct s as [|c rest]; [done|]. cbn. destruct rest; done.
Qed.

(** * The further properties on the sample worlds *)

Lemma compile_translations_writes_only_compiled_witness :
  nodes (compile_translations (lib := sample_library) ["fr"; "en"] full_world).2
    !! po_path "fr"
  = nodes full_world !! po_path "fr".
Proof.
  apply (compile_translations_writes_only_compiled (lib := sample_library)
           ["fr"; "en"] (po_path "fr") full_world).
  vm_compute. discriminate.
Defined.

Lemma compile_translations_skips_missing_witness :
  compile_translations (lib := sample_library) ["de"] sample_world = (Ok tt, sample_world)
  /\ compile_translations (lib := sample_library) ["de"; "fr"] sample_world
     = compile_translations (lib := sample_library) ["fr"] sample_world.
Proof.
  apply (compile_translations_skips_missing (lib := sample_library)
           "de" "fr" [] sample_world).
  vm_compute. reflexivity.
Defined.

Lemma compile_translations_stops_at_failure_witness :
  (compile_translations (lib := sample_library) ["fr"; "en"] full_world).1
  = Raise (OSError (mo_path "fr"))
  /\ nodes (compile_translations (lib := sample_library) ["fr"; "en"] full_world).2
       !! mo_path "en"
     = nodes full_world !! mo_path "en".
Proof.
  assert (Hpo : nodes full_world !! po_path "fr" = Some (File 420 (PoText sample_fr)))
    by (vm_compute; reflexivity).
  assert (Hfail : _compile_translation (lib := sample_library)
                    (po_path "fr") (mo_path "fr") full_world
                  = (Raise (OSError (mo_path "fr")),
                     (_compile_translation (lib := sample_library)
                        (po_path "fr") (mo_path "fr") full_world).2)).
  { rewrite (surjective_pairing (_compile_translation _ _ full_world)) at 1.
    f_equal; vm_compute; reflexivity. }
  destruct (compile_translations_stops_at_failure (lib := sample_library)
              "fr" ["en"] full_world _ _ _ Hpo Hfail) as [Hrun Hother].
  rewrite Hrun. split; [reflexivity|]. apply Hother. discriminate.
Defined.

Lemma update_translations_footprint_witness :
  nodes (update_translations (lib := sample_library) [] sample_world).2 !! join root ["fr"]
  = nodes sample_world !! join root ["fr"]
  /\ nodes (update_translations (lib := sample_library) [] sample_world).2 !! pot_path
     = nodes sample_world !! pot_path.
Proof.
  apply (update_translations_footprint (lib := sample_library)
           [] (join root ["fr"]) sample_world);
    vm_compute; discriminate.
Defined.

Lemma update_translations_without_template_witness :
  update_translations (lib := sample_library) ["fr"] bare_world
  = (Raise (FileNotFoundError pot_path),
     emit Stdout ("Updating " +:+ repr_list (Library := sample_library) ["fr"]) bare_world).
Proof.
  apply (update_translations_without_template (lib := sample_library)
           "fr" [] bare_world).
  vm_compute. reflexivity.
Defined.

Lemma update_translations_uninitialized_locale_witness :
  update_translations (lib := sample_library) ["de"] sample_world
  = (Ok tt,
     emit Stdout ("ERROR: " +:+ path_str (po_path "de") +:+ " does not exist...")
       (emit Stdout ("Updating " +:+ repr_list (Library := sample_library) ["de"])
          sample_world)).
Proof.
  apply (update_translations_uninitialized_locale (lib := sample_library)
           "de" sample_template 420 sample_world);
    vm_compute; reflexivity.
Defined.

Lemma update_translations_recompiles_witness :
  (update_translations (lib := sample_library) ["fr"] sample_world).1 = Ok tt
  /\ compiled_catalog (update_translations (lib := sample_library) ["fr"] sample_world).2
       "fr"
     = Some (Some (sample_mo_image (Catalog_update sample_fr sample_template))).
Proof.
  assert (Hpot : nodes sample_world !! pot_path = Some (File 420 (PoText sample_template)))
    by (vm_compute; reflexivity).
  assert (Hpo : nodes sample_world !! po_path "fr" = Some (File 420 (PoText sample_fr)))
    by (vm_compute; reflexivity).
  assert (Hmo : (exists m d, nodes sample_world !! mo_path "fr" = Some (File m d))
                \/ (nodes sample_world !! mo_path "fr" = None
                    /\ is_dir (nodes sample_world) (join root ["fr"]) = true)).
  { left. exists 420%N, (MoBinary (sample_mo_image sample_fr)). vm_compute. reflexivity. }
  destruct (update_translations_recompiles (lib := sample_library)
              "fr" sample_template sample_fr 420 420 sample_world
              Hpot Hpo eq_refl Hmo) as (Hok & _ & _ & Hfresh & _).
  split; [exact Hok|]. apply Hfresh. vm_compute. reflexivity.
Defined.

Lemma get_locales_lists_working_catalogs_witness :
  exists ls,
    get_locales sample_world = (Ok ls, sample_world)
    /\ NoDup ls
    /\ forall d, d ∈ ls <->
         is_dir (nodes sample_world) (join root [d]) = true
         /\ is_Some (nodes sample_world !! po_path d).
Proof.
  apply (proj1 (get_locales_lists_working_catalogs sample_world) 493%N).
  vm_compute. reflexivity.
Defined.

Lemma validate_translations_outcome_witness :
  validate_translations (lib := sample_library) ["de"] sample_world
  = (Ok false, emit Stdout ("Portable object file for locale " +:+ dquote
                            +:+ "de" +:+ dquote +:+ " does not exist.") sample_world)
  /\ (exists ok w',
       validate_translations (lib := sample_library) ["fr"] sample_world = (Ok ok, w')
       /\ (ok = true <-> List.filter Message.fuzzy (Catalog_iter sample_fr) = []))
  /\ (validate_translations (lib := sample_library) ["fr"]
        (set_nodes <[po_path "fr" := File 420 Empty]> sample_world)).1 = Ok false.
Proof.
  destruct (validate_translations_outcome (lib := sample_library) "de" [] sample_world)
    as (_ & Hmissing & _).
  destruct (validate_translations_outcome (lib := sample_library) "fr" [] sample_world)
    as (_ & _ & Hthere & _).
  destruct (validate_translations_outcome (lib := sample_library) "fr" []
              (set_nodes <[po_path "fr" := File 420 Empty]> sample_world))
    as (_ & _ & _ & Hempty & _).
  split; [|split].
  - apply Hmissing. vm_compute. reflexivity.
  - apply Hthere. vm_compute. reflexivity.
  - apply (Hempty 420%N). vm_compute. reflexivity.
Defined.

Lemma maintenance_removes_nothing_witness :
  exists n', nodes (update_translations (lib := sample_library) [] full_world).2
               !! mo_path "fr" = Some n'
             /\ same_kind (File 420 (MoBinary (sample_mo_image sample_fr))) n'.
Proof.
  apply (maintenance_removes_nothing (lib := sample_library) [] full_world
           (mo_path "fr") (File 420 (MoBinary (sample_mo_image sample_fr)))).
  vm_compute. reflexivity.
Defined.

Lemma generate_po_twice_witness :
  generate_po ["es"] (generate_po ["es"] sample_world).2
  = (Ok tt, emit Stdout ("Portable object file already exists at "
                         +:+ path_str (po_path "es"))
              (generate_po ["es"] sample_world).2).
Proof.
  apply (generate_po_twice "es" [] [] sample_world).
  vm_compute. reflexivity.
Defined.

Lemma generate_po_without_template_witness :
  (generate_po ["es"] bare_world).1 = Raise (FileNotFoundError pot_path)
  /\ nodes (generate_po ["es"] bare_world).2
     = <[join root ["es"] := Dir 511]> (nodes bare_world)
  /\ stdout (generate_po ["es"] bare_world).2 = stdout bare_world.
Proof.
  apply (generate_po_without_template "es" [] bare_world).
  - discriminate.
  - vm_compute. reflexivity.
  - vm_compute. reflexivity.
  - vm_compute. reflexivity.
Defined.

Lemma gettext_translates_witness :
  GetText_call (lib := sample_library) "Hello" [] [] sample_world
  = (Ok "Hello!", remember "en" (Some (sample_mo_image sample_en)) sample_world).
Proof.
  apply (gettext_translates (lib := sample_library) "Hello" "Hello!" (VInt 1) []
           ("name", VInt 1) [] [] (sample_mo_image sample_en) sample_world);
    vm_compute; reflexivity.
Defined.

Lemma ungettext_translates_witness :
  ungettext (lib := sample_library) "one item" "many items" 1 [] [] plural_world
  = (Ok "un article", remember "fr" (Some (sample_mo_image sample_plural)) plural_world)
  /\ ungettext (lib := sample_library) "one item" "many items" 4 [] [] plural_world
     = (Ok "des articles", remember "fr" (Some (sample_mo_image sample_plural)) plural_world).
Proof.
  split.
  - apply (ungettext_translates (lib := sample_library) "one item" "many items"
             "many items" "un article" 1 (VInt 1) [] [] (sample_mo_image sample_plural)
             plural_world); vm_compute; reflexivity.
  - apply (ungettext_translates (lib := sample_library) "one item" "many items"
             "many items" "des articles" 4 (VInt 4) [] [] (sample_mo_image sample_plural)
             plural_world); vm_compute; reflexivity.
Defined.

Lemma resolution_footprint_witness :
  nodes (GetText_call (lib := sample_library) "Hello" [] [] sample_world).2
  = nodes sample_world
  /\ translations_memo
       (GetText_call (lib := sample_library) "Hello" [] [] sample_world).2 !! "fr"
     = translations_memo sample_world !! "fr".
Proof.
  destruct (resolution_footprint (lib := sample_library) "Hello" "Hellos" 1 [] []
              sample_world) as (_ & Hnodes & _ & _ & _ & _ & _ & Hother & _).
  split; [exact Hnodes|]. apply Hother. discriminate.
Defined.

Lemma resolution_is_memoized_witness :
  let first := GetText_call (lib := sample_library) "Hello" [] []
                 (set_lang "es" sample_world) in
  let compiled := <[mo_path "es" := File 420 (MoBinary (sample_mo_image sample_fr))]> in
  GetText_call (lib := sample_library) "Hello" [] [] (set_nodes compiled first.2)
  = (Ok "Hello", set_nodes compiled first.2).
Proof.
  intros first compiled.
  apply (resolution_is_memoized (lib := sample_library) "Hello" [] [] None compiled
           (set_lang "es" sample_world)).
  - vm_compute. reflexivity.
  - reflexivity.
Defined.

Lemma failed_lookup_is_retried_witness :
  (exists e, GetText_call (lib := sample_library) "Hello" [] [] broken_world
             = (Raise e, broken_world))
  /\ (GetText_call (lib := sample_library) "Hello" [] []
        (set_nodes <[mo_path "it" := File 420 (MoBinary (sample_mo_image sample_fr))]>
           broken_world)).1
     = Ok "Bonjour".
Proof.
  destruct (failed_lookup_is_retried (lib := sample_library) "Hello" [] [] 420
              (sample_mo_image sample_fr) broken_world) as [Hfail Hretry].
  - vm_compute. reflexivity.
  - split; [exact Hfail|]. cbv zeta in Hretry.
    change (lang broken_world) with "it" in Hretry. rewrite Hretry.
    vm_compute. reflexivity.
Defined.

Lemma compile_then_resolve_witness :
  exists c,
    catalog_at sample_world (po_path "fr") = Some c
    /\ compiled_catalog
         (set_lang "fr" (_compile_translation (lib := sample_library)
                           (po_path "fr") (mo_path "fr") sample_world).2) "fr"
       = Some (Some (sample_mo_image c)).
Proof.
  assert (Hrun : _compile_translation (lib := sample_library)
                   (po_path "fr") (mo_path "fr") sample_world
                 = (Ok tt, (_compile_translation (lib := sample_library)
                              (po_path "fr") (mo_path "fr") sample_world).2)).
  { rewrite (surjective_pairing (_compile_translation _ _ sample_world)) at 1.
    f_equal; vm_compute; reflexivity. }
  destruct (compile_then_resolve (lib := sample_library) "fr" "Hello" [] []
              sample_world _ tt Hrun eq_refl) as (c & Hc & Hv & _).
  exists c. split; [exact Hc | exact Hv].
Defined.

Lemma failed_compile_breaks_resolution_witness :
  exists e,
    GetText_call (lib := sample_library) "Hello" [] []
      (set_lang "fr" (_compile_translation (lib := sample_library)
                        (po_path "fr") (mo_path "fr") full_world).2)
    = (Raise e, set_lang "fr" (_compile_translation (lib := sample_library)
                                 (po_path "fr") (mo_path "fr") full_world).2).
Proof.
  assert (Hrun : _compile_translation (lib := sample_library)
                   (po_path "fr") (mo_path "fr") full_world
                 = (Raise (OSError (mo_path "fr")),
                    (_compile_translation (lib := sample_library)
                       (po_path "fr") (mo_path "fr") full_world).2)).
  { rewrite (surjective_pairing (_compile_translation _ _ full_world)) at 1.
    f_equal; vm_compute; reflexivity. }
  apply (failed_compile_breaks_resolution (lib := sample_library) "fr" "Hello" [] []
           full_world _ (mo_path "fr") Hrun eq_refl).
Defined.

Lemma sample_scan (d : string) (w0 : World) :
  d ∈ ["openlibrary"; "scripts"] ->
  extract_from_dir (Extraction := sample_extraction) d METHODS COMMENT_TAGS true w0
  = (Ok (sample_occurrences d), w0).
Proof.
  intros Hd. apply elem_of_cons in Hd as [->|Hd]; [reflexivity|].
  apply list_elem_of_singleton in Hd as ->. reflexivity.
Qed.

Lemma sample_template_writable :
  (exists m d0, nodes sample_world !! pot_path = Some (File m d0))
  \/ (nodes sample_world !! pot_path = None /\ is_dir (nodes sample_world) root = true).
Proof. left. exists 420%N, (PoText sample_template). vm_compute. reflexivity. Qed.

Lemma extract_messages_rebuilds_template_witness :
  let template := fold_left add_occurrence (["openlibrary"; "scripts"] ≫= sample_occurrences)
                    (fresh_catalog (ext := sample_extraction)) in
  (exists w' m,
     extract_messages (ext := sample_extraction) ["openlibrary"; "scripts"] sample_world
     = (Ok tt, w')
     /\ nodes w' = <[pot_path := File m (PoText template)]> (nodes sample_world))
  /\ Message.id <$> messages template = ["Hello"; "Goodbye"]
  /\ header_fuzzy template = true
  /\ (_validate_catalog (lib := sample_library) template "fr" sample_world).1 = Ok false.
Proof.
  intros template.
  destruct (extract_messages_rebuilds_template (lib := sample_library)
              (ext := sample_extraction) ["openlibrary"; "scripts"] sample_occurrences
              sample_world sample_scan eq_refl sample_template_writable)
    as (Hrun & _ & _ & _ & _ & Hfz & Hval).
  split; [exact Hrun|]. split; [vm_compute; reflexivity|]. split; [exact Hfz|].
  exact (proj1 (Hval "fr" sample_world)).
Defined.

Lemma extract_messages_reports_counts_witness :
  stderr (extract_messages (ext := sample_extraction)
            ["openlibrary"; "scripts"] sample_world).2
  = ["2" +:+ String (Ascii.ascii_of_nat 9) "openlibrary/app.py";
     "1" +:+ String (Ascii.ascii_of_nat 9) "openlibrary/home.html";
     "1" +:+ String (Ascii.ascii_of_nat 9) "scripts/run.py"].
Proof.
  destruct (extract_messages_reports_counts (ext := sample_extraction)
              ["openlibrary"; "scripts"] sample_occurrences sample_world
              sample_scan eq_refl sample_template_writable) as (Herr & _).
  rewrite Herr. vm_compute. reflexivity.
Defined.

Lemma extract_messages_scan_failure_witness :
  (extract_messages (ext := sample_extraction)
     ["openlibrary"; "broken"; "scripts"] sample_world).1
  = Raise (FileNotFoundError ["broken"])
  /\ nodes (extract_messages (ext := sample_extraction)
              ["openlibrary"; "broken"; "scripts"] sample_world).2
     = nodes sample_world.
Proof.
  destruct (extract_messages_scan_failure (ext := sample_extraction)
              ["openlibrary"] ["scripts"] "broken" sample_occurrences
              (FileNotFoundError ["broken"]) sample_world) as (Hr & Hn & _).
  - intros d w0 Hd. apply list_elem_of_singleton in Hd as ->. reflexivity.
  - intros w0. reflexivity.
  - split; [exact Hr | exact Hn].
Defined.

Lemma remove_escaped_dollars_spec_witness :
  remove_escaped_dollars "price: $5" = "price: $5".
Proof.
  apply (proj1 (remove_escaped_dollars_spec "price: $5")). vm_compute. reflexivity.
Defined.
